(** * enhancing/losses/vqperceptual.py: a shallow embedding

    The file defines two loss modules for a VQ image autoencoder:
    [VQLPIPS] (reconstruction + codebook) and [VQLPIPSWithDiscriminator]
    (the same objective plus an adversarial term, a warm-up gate, an
    adaptive adversarial weight and a periodic R1 penalty).

    Conventions of the embedding.
    - Python floats and the elements of torch tensors are real numbers
      ([R]): no rounding, overflow or NaN.
    - An image batch (N x C x H x W) is a list of samples, a sample a list
      of channels, a channel the list of its H*W pixels.
    - A Python call either returns a value or raises; [result] records
      which, and [x <- c ;; k] sequences statements the way the interpreter
      does (the first exception ends the call).
    - Collaborators that live outside the file (the LPIPS network, the
      StyleGAN discriminator, autograd over the caller's graph) are taken as
      arguments.
    - The bodies are described statement by statement, as the interpreter
      would run them.  Line 140 is written [f"{}/d_weight".format(split)]:
      an f-string with an empty replacement field, which the Python compiler
      refuses when the file is loaded.  The embedding reads that line as the
      plain ["{}/d_weight".format(split)] of its neighbours, so that the
      run-time behaviour of the other 167 lines can be stated at all. *)

From Stdlib Require Import Reals Lra Lia String ZArith Bool List.
Import ListNotations.

Local Open Scope R_scope.

(** ** Python outcomes *)

Module Py.

(** The exceptions the file can run into.  [AttributeError owner attr] is
    what attribute lookup raises when an object of type [owner] has no
    attribute [attr]. *)
Inductive exn : Type :=
| AttributeError (owner attr : string)
| NameError (name : string)
| ValueError
| RuntimeError
| TypeError
| AssertionError.

Inductive result (A : Type) : Type :=
| Ok (a : A)
| Raise (e : exn).

Arguments Ok {A} a.
Arguments Raise {A} e.

Definition bind {A B} (c : result A) (k : A -> result B) : result B :=
  match c with
  | Ok a => k a
  | Raise e => Raise e
  end.

(** [try: c  except RuntimeError: h]. *)
Definition except_RuntimeError {A} (c h : result A) : result A :=
  match c with
  | Raise RuntimeError => h
  | other => other
  end.

(** [assert b]. *)
Definition assert (b : bool) : result unit :=
  if b then Ok tt else Raise AssertionError.

Definition returns {A} (c : result A) : bool :=
  match c with Ok _ => true | Raise _ => false end.

(** The outcome of [c] seen through [f]: the same exception, or [f] of the
    value. *)
Definition map_result {A B} (f : A -> B) (c : result A) : result B :=
  match c with
  | Ok a => Ok (f a)
  | Raise e => Raise e
  end.

(** A [dict] with string keys: insertion-ordered, one entry per key. *)
Definition dict (V : Type) := list (string * V).

Fixpoint dict_get {V} (k : string) (d : dict V) : option V :=
  match d with
  | [] => None
  | (k', v) :: d' => if String.eqb k' k then Some v else dict_get k d'
  end.

(** [d[k] = v]. *)
Fixpoint dict_set {V} (k : string) (v : V) (d : dict V) : dict V :=
  match d with
  | [] => [(k, v)]
  | (k', v') :: d' =>
      if String.eqb k' k then (k, v) :: d' else (k', v') :: dict_set k v d'
  end.

(** A dict display [{k1: v1, ..., kn: vn}]: the entries are stored left to
    right. *)
Definition dict_display {V} (entries : list (string * V)) : dict V :=
  fold_left (fun d kv => dict_set (fst kv) (snd kv) d) entries [].

(** ["{}/name".format(split)]. *)
Definition fmt (split name : string) : string :=
  (split ++ "/" ++ name)%string.

End Py.

Import Py.

Declare Scope result_scope.
Delimit Scope result_scope with result.
Bind Scope result_scope with Py.result.
Notation "x <- c ;; k" := (Py.bind c (fun x => k))
  (at level 61, c at next level, right associativity) : result_scope.
Notation "' pat <- c ;; k" := (Py.bind c (fun x => match x with pat => k end))
  (at level 61, pat pattern, c at next level, right associativity) : result_scope.
Local Open Scope result_scope.

(** ** The torch operations the file uses *)

Module Torch.

Definition channel := list R.
Definition sample := list channel.
Definition tensor := list sample.

Definition tmap (f : R -> R) (t : tensor) : tensor :=
  map (map (map f)) t.

Fixpoint zip_with {A B C} (f : A -> B -> C) (l : list A) (m : list B) : list C :=
  match l, m with
  | a :: l', b :: m' => f a b :: zip_with f l' m'
  | _, _ => []
  end.

(** Element-wise binary operation on two tensors of the same shape. *)
Definition tmap2 (f : R -> R -> R) (s t : tensor) : tensor :=
  zip_with (zip_with (zip_with f)) s t.

Definition lsum (l : list R) : R := fold_right Rplus 0 l.

(** [t.view(t.shape[0], -1)]: one row per sample. *)
Definition view_rows (t : tensor) : list (list R) :=
  map (@concat R) t.

Definition flatten (t : tensor) : list R := concat (view_rows t).

(** [t.sum()] and [t.mean()] over all elements. *)
Definition sum (t : tensor) : R := lsum (flatten t).
Definition lmean (l : list R) : R := lsum l / INR (length l).
Definition mean (t : tensor) : R := lmean (flatten t).

(** [x.clamp(lo, hi)] is [min(max(x, lo), hi)]. *)
Definition clamp (lo hi x : R) : R := Rmin (Rmax x lo) hi.

(** [x.logit(eps)]: clamp to [eps, 1 - eps], then [log(z / (1 - z))]. *)
Definition logit (eps x : R) : R :=
  let z := clamp eps (1 - eps) x in ln (z / (1 - z)).

Definition sigmoid (x : R) : R := 1 / (1 + exp (- x)).

Definition relu (x : R) : R := Rmax 0 x.

(** [log(1 + exp(x))], the summand of binary cross entropy with logits:
    BCE(x, 1) = softplus(-x) and BCE(x, 0) = softplus(x). *)
Definition softplus (x : R) : R := ln (1 + exp x).

(** The 2-norm of a row, and [torch.norm(t)], the 2-norm of all elements. *)
Definition norm_row (l : list R) : R := sqrt (lsum (map (fun x => x * x) l)).
Definition norm (t : tensor) : R := norm_row (flatten t).

(** [t.chunk(2, dim=1)]: the pieces of size ceil(C/2) along the channel
    axis. *)
Definition chunk2 (t : tensor) : list tensor :=
  let c := match t with s :: _ => length s | [] => O end in
  let k := Nat.div2 (S c) in
  if Nat.leb c k
  then [map (firstn k) t]
  else [map (firstn k) t; map (skipn k) t].

(** What a method call can be sent to on lines 38-39 and 103-104: a tensor,
    or the tuple of tensors that [chunk] returns. *)
Inductive pyobj : Type :=
| Tensor (t : tensor)
| Tuple (ts : list tensor).

(** [o.contiguous()]: a tensor answers with a tensor of the same contents;
    a tuple has no such attribute. *)
Definition contiguous (o : pyobj) : result tensor :=
  match o with
  | Tensor t => Ok t
  | Tuple _ => Raise (AttributeError "tuple" "contiguous")
  end.

(** [a, b = t] for a tensor [t]: iteration walks the first axis, and there
    must be exactly two items (each is kept as a batch of one sample). *)
Definition unpack2 (t : tensor) : result (tensor * tensor) :=
  match t with
  | [a; b] => Ok ([a], [b])
  | _ => Raise ValueError
  end.

(** The outcome of [torch.autograd.grad(loss, last_layer,
    retain_graph=True)[0]] for the two scalars that
    [calculate_adaptive_factor] differentiates.  The graph behind them
    belongs to the caller (the generator that produced [outputs]), so what
    differentiation yields is part of the argument: the gradient, or
    RuntimeError when there is no gradient path. *)
Record RefTensor : Type := {
  grad_of_nll_loss : result tensor;
  grad_of_g_loss : result tensor
}.

(** [torch.autograd.grad(loss, last_layer, ...)[0]]; [last_layer] defaults
    to None, which [grad] cannot turn into a tuple of inputs. *)
Definition autograd_grad (pick : RefTensor -> result tensor)
    (last_layer : option RefTensor) : result tensor :=
  match last_layer with
  | Some ref => pick ref
  | None => Raise TypeError
  end.

End Torch.

Import Torch.

(** ** enhancing/losses/layers.py *)

Module Layers.

(** Modelled from the spec: the discriminator network (StyleDiscriminator,
    from layers.py, not among the sources): "image batch in, realness logits
    out", and differentiable in its input.  [disc_input_grad x] is the
    outcome of [torch.autograd.grad(outputs=D(x).sum(), inputs=x,
    create_graph=True)]. *)
Record StyleDiscriminator : Type := {
  disc_forward : tensor -> tensor;
  disc_input_grad : tensor -> result tensor
}.

(** Modelled from the spec: hinge_d_loss of layers.py; generator form
    [-mean(logits_fake)], discriminator form
    [mean(relu(1-logits_real)) + mean(relu(1+logits_fake))], halved. *)
Definition hinge_d_loss (logits_fake : tensor) (logits_real : option tensor) : R :=
  match logits_real with
  | None => - mean logits_fake
  | Some lr =>
      (mean (tmap (fun x => relu (1 - x)) lr)
       + mean (tmap (fun x => relu (1 + x)) logits_fake)) / 2
  end.

(** Modelled from the spec: vanilla_d_loss of layers.py; generator form
    binary cross entropy with logits of fake against the label "real",
    discriminator form BCE(real vs 1) + BCE(fake vs 0), halved. *)
Definition vanilla_d_loss (logits_fake : tensor) (logits_real : option tensor) : R :=
  match logits_real with
  | None => mean (tmap (fun x => softplus (- x)) logits_fake)
  | Some lr =>
      (mean (tmap (fun x => softplus (- x)) lr)
       + mean (tmap softplus logits_fake)) / 2
  end.

(** Modelled from the spec: least_square_d_loss of layers.py; generator
    form [mean((logits_fake-1)^2)], discriminator form
    [mean((logits_real-1)^2) + mean(logits_fake^2)], halved. *)
Definition least_square_d_loss (logits_fake : tensor) (logits_real : option tensor) : R :=
  match logits_real with
  | None => mean (tmap (fun x => (x - 1) ^ 2) logits_fake)
  | Some lr =>
      (mean (tmap (fun x => (x - 1) ^ 2) lr)
       + mean (tmap (fun x => x ^ 2) logits_fake)) / 2
  end.

End Layers.

Import Layers.

(** ** Statements shared by the two forward methods *)

(** The clamp epsilon of lines 38 and 103, [1e-4]. *)
Definition eps : R := 1 / 10000.

(** Lines 41 and 109: [loglogitlaplace_loss]. *)
Definition loglogitlaplace (logit_inputs mu log_sigma : tensor) : R :=
  mean (tmap2 Rplus
          (tmap2 Rdiv (tmap Rabs (tmap2 Rminus mu logit_inputs)) (tmap exp log_sigma))
          log_sigma).

(** Lines 42 and 110: [loggaussian_loss]. *)
Definition loggaussian (logit_inputs mu : tensor) : R :=
  mean (tmap (fun x => x ^ 2) (tmap2 Rminus (tmap sigmoid mu) (tmap sigmoid logit_inputs))).

(** The operands of lines 43 and 111: [t.sigmoid()*2-1]. *)
Definition rescale (t : tensor) : tensor :=
  tmap (fun x => x * 2 - 1) (tmap sigmoid t).

(** Lines 41-43 and 109-111 (the same three statements):
    [loglogitlaplace_loss], [loggaussian_loss], [perceptual_loss]. *)
Definition reconstruction_terms (lpips : tensor -> tensor -> tensor)
    (logit_inputs mu log_sigma : tensor) : R * R * R :=
  (loglogitlaplace logit_inputs mu log_sigma,
   loggaussian logit_inputs mu,
   mean (lpips (rescale mu) (rescale logit_inputs))).

(** Lines 38-39 and 103-104: [logit_inputs], and then [mu, log_sigma] out
    of [outputs.chunk(2, dim=1).contiguous()]. *)
Definition split_parameters (inputs outputs : tensor)
  : result (tensor * tensor * tensor) :=
  logit_inputs <- contiguous (Tensor (tmap (logit eps) inputs)) ;;
  chunks <- contiguous (Tuple (chunk2 outputs)) ;;
  ' (mu, log_sigma) <- unpack2 chunks ;;
  Ok (logit_inputs, mu, log_sigma).

(** ** class VQLPIPS *)

Module VQLPIPS.

(** An instance: the attributes [__init__] sets, and [instance_dict] for
    whatever else has been assigned on the instance since ([__init__]
    leaves it empty). *)
Record t : Type := {
  perceptual_loss : tensor -> tensor -> tensor;
  codebook_weight : R;
  loglaplace_weight : R;
  loggaussian_weight : R;
  perceptual_weight : R;
  instance_dict : dict R
}.

(** Lines 23-34.  [lpips] stands for the network that
    [lpips.LPIPS(net="vgg", verbose=False)] loads. *)
Definition init (lpips : tensor -> tensor -> tensor)
    (codebook_weight loglaplace_weight loggaussian_weight perceptual_weight : R) : t :=
  {| perceptual_loss := lpips;
     codebook_weight := codebook_weight;
     loglaplace_weight := loglaplace_weight;
     loggaussian_weight := loggaussian_weight;
     perceptual_weight := perceptual_weight;
     instance_dict := [] |}.

(** [self.name] for a float attribute, by name: the attributes of
    [__init__] first, then the rest of the instance. *)
Definition getattr (self : t) (name : string) : result R :=
  if String.eqb name "codebook_weight" then Ok (codebook_weight self)
  else if String.eqb name "loglaplace_weight" then Ok (loglaplace_weight self)
  else if String.eqb name "loggaussian_weight" then Ok (loggaussian_weight self)
  else if String.eqb name "perceptual_weight" then Ok (perceptual_weight self)
  else match dict_get name (instance_dict self) with
       | Some v => Ok v
       | None => Raise (AttributeError "VQLPIPS" name)
       end.

(** The local variables alive after line 46. *)
Record locals : Type := {
  loglogitlaplace_loss : R;
  loggaussian_loss : R;
  perceptual_loss_value : R;
  nll_loss : R;
  loss : R
}.

(** Lines 41-46. *)
Definition objective (self : t) (codebook_loss : R)
    (logit_inputs mu log_sigma : tensor) : result locals :=
  let '(ll, lg, lp) :=
    reconstruction_terms (perceptual_loss self) logit_inputs mu log_sigma in
  w_ll <- getattr self "loglogitlaplace_weight" ;;
  let nll := w_ll * ll + loggaussian_weight self * lg + perceptual_weight self * lp in
  Ok {| loglogitlaplace_loss := ll;
        loggaussian_loss := lg;
        perceptual_loss_value := lp;
        nll_loss := nll;
        loss := nll + codebook_weight self * codebook_loss |}.

(** Lines 48-54.  The fourth entry reads the name [loglaplace_loss]; the
    function binds [loglogitlaplace_loss] (line 41) and nothing in the file
    binds the other, so evaluating the display stops there. *)
Definition build_log (split : string) (codebook_loss : R) (l : locals) : result (dict R) :=
  let total := (fmt split "total_loss", loss l) in
  let quant := (fmt split "quant_loss", codebook_loss) in
  let rec := (fmt split "rec_loss", nll_loss l) in
  loglaplace_loss <- Raise (NameError "loglaplace_loss") ;;
  Ok (dict_display
        [total; quant; rec;
         (fmt split "loglaplace_loss", loglaplace_loss);
         (fmt split "loggaussian_loss", loggaussian_loss l);
         (fmt split "perceptual_loss", perceptual_loss_value l)]).

(** Lines 36-56.  [optimizer_idx], [global_step] and [last_layer] are
    accepted and never read. *)
Definition forward (self : t) (codebook_loss : R) (inputs outputs : tensor)
    (optimizer_idx global_step : Z) (last_layer : option RefTensor)
    (split : string) : result (R * dict R) :=
  ' (logit_inputs, mu, log_sigma) <- split_parameters inputs outputs ;;
  l <- objective self codebook_loss logit_inputs mu log_sigma ;;
  log <- build_log split codebook_loss l ;;
  Ok (loss l, log).

End VQLPIPS.

(** ** class VQLPIPSWithDiscriminator *)

Module VQLPIPSWithDiscriminator.

(** An instance: [training] is the flag of [nn.Module] ([train()] and
    [eval()] set it), the rest are the attributes [__init__] sets, and
    [instance_dict] holds whatever else has been assigned on the instance
    since ([__init__] leaves it empty). *)
Record t : Type := {
  training : bool;
  perceptual_loss : tensor -> tensor -> tensor;
  codebook_weight : R;
  loglaplace_weight : R;
  loggaussian_weight : R;
  perceptual_weight : R;
  discriminator : StyleDiscriminator;
  discriminator_iter_start : Z;
  disc_loss : tensor -> option tensor -> R;
  adversarial_weight : R;
  use_adaptive_adv : bool;
  instance_dict : dict R
}.

(** Lines 60-89.  [lpips] stands for the network that [lpips.LPIPS] loads
    and [disc] for [StyleDiscriminator( **disc_params)]. *)
Definition init (lpips : tensor -> tensor -> tensor) (disc : StyleDiscriminator)
    (disc_start : Z) (disc_loss_name : string)
    (codebook_weight loglaplace_weight loggaussian_weight perceptual_weight
       adversarial_weight : R)
    (use_adaptive_adv : bool) : result t :=
  _ <- assert (existsb (String.eqb disc_loss_name) ["hinge"; "vanilla"; "least_square"]%string) ;;
  Ok {| training := true;
        perceptual_loss := lpips;
        codebook_weight := codebook_weight;
        loglaplace_weight := loglaplace_weight;
        loggaussian_weight := loggaussian_weight;
        perceptual_weight := perceptual_weight;
        discriminator := disc;
        discriminator_iter_start := disc_start;
        disc_loss :=
          if String.eqb disc_loss_name "hinge" then hinge_d_loss
          else if String.eqb disc_loss_name "vanilla" then vanilla_d_loss
          else least_square_d_loss;
        adversarial_weight := adversarial_weight;
        use_adaptive_adv := use_adaptive_adv;
        instance_dict := [] |}.

(** [self.eval()] and [self.train()]. *)
Definition set_training (mode : bool) (self : t) : t :=
  {| training := mode;
     perceptual_loss := perceptual_loss self;
     codebook_weight := codebook_weight self;
     loglaplace_weight := loglaplace_weight self;
     loggaussian_weight := loggaussian_weight self;
     perceptual_weight := perceptual_weight self;
     discriminator := discriminator self;
     discriminator_iter_start := discriminator_iter_start self;
     disc_loss := disc_loss self;
     adversarial_weight := adversarial_weight self;
     use_adaptive_adv := use_adaptive_adv self;
     instance_dict := instance_dict self |}.

(** [self.name = v] for a name that [__init__] does not set. *)
Definition setattr (name : string) (v : R) (self : t) : t :=
  {| training := training self;
     perceptual_loss := perceptual_loss self;
     codebook_weight := codebook_weight self;
     loglaplace_weight := loglaplace_weight self;
     loggaussian_weight := loggaussian_weight self;
     perceptual_weight := perceptual_weight self;
     discriminator := discriminator self;
     discriminator_iter_start := discriminator_iter_start self;
     disc_loss := disc_loss self;
     adversarial_weight := adversarial_weight self;
     use_adaptive_adv := use_adaptive_adv self;
     instance_dict := dict_set name v (instance_dict self) |}.

(** [self.adversarial_weight = v]. *)
Definition set_adversarial_weight (v : R) (self : t) : t :=
  {| training := training self;
     perceptual_loss := perceptual_loss self;
     codebook_weight := codebook_weight self;
     loglaplace_weight := loglaplace_weight self;
     loggaussian_weight := loggaussian_weight self;
     perceptual_weight := perceptual_weight self;
     discriminator := discriminator self;
     discriminator_iter_start := discriminator_iter_start self;
     disc_loss := disc_loss self;
     adversarial_weight := v;
     use_adaptive_adv := use_adaptive_adv self;
     instance_dict := instance_dict self |}.

(** [self.name] for a float attribute, by name: the attributes of
    [__init__] first, then the rest of the instance. *)
Definition getattr (self : t) (name : string) : result R :=
  if String.eqb name "codebook_weight" then Ok (codebook_weight self)
  else if String.eqb name "loglaplace_weight" then Ok (loglaplace_weight self)
  else if String.eqb name "loggaussian_weight" then Ok (loggaussian_weight self)
  else if String.eqb name "perceptual_weight" then Ok (perceptual_weight self)
  else if String.eqb name "adversarial_weight" then Ok (adversarial_weight self)
  else match dict_get name (instance_dict self) with
       | Some v => Ok v
       | None => Raise (AttributeError "VQLPIPSWithDiscriminator" name)
       end.

(** Lines 91-99.  The values of [nll_loss] and [g_loss] do not enter: the
    two gradients are read off the graph behind them, through
    [last_layer]. *)
Definition calculate_adaptive_factor (self : t) (nll_loss g_loss : R)
    (last_layer : option RefTensor) : result R :=
  nll_grads <- autograd_grad grad_of_nll_loss last_layer ;;
  g_grads <- autograd_grad grad_of_g_loss last_layer ;;
  let adapt_factor := norm nll_grads / (norm g_grads + 1 / 10000) in
  Ok (clamp 0 10000 adapt_factor).

(** Lines 118-125: the try statement that leaves [d_weight]. *)
Definition adversarial_d_weight (self : t) (nll_loss g_loss : R)
    (last_layer : option RefTensor) : result R :=
  except_RuntimeError
    (let d_weight := adversarial_weight self in
     if use_adaptive_adv self
     then
       factor <- calculate_adaptive_factor self nll_loss g_loss last_layer ;;
       Ok (d_weight * factor)
     else Ok d_weight)
    (_ <- assert (negb (training self)) ;;
     Ok 0).

(** Lines 127 and 152. *)
Definition disc_factor (self : t) (global_step : Z) : R :=
  if (global_step >=? discriminator_iter_start self)%Z then 1 else 0.

(** The local variables alive after line 128. *)
Record locals : Type := {
  loglogitlaplace_loss : R;
  loggaussian_loss : R;
  perceptual_loss_value : R;
  nll_loss : R;
  g_loss : R;
  d_weight : R;
  loss : R
}.

(** Lines 109-128. *)
Definition generator_loss (self : t) (codebook_loss : R)
    (logit_inputs mu log_sigma : tensor) (global_step : Z)
    (last_layer : option RefTensor) : result locals :=
  let '(ll, lg, lp) :=
    reconstruction_terms (perceptual_loss self) logit_inputs mu log_sigma in
  w_ll <- getattr self "loglogitlaplace_weight" ;;
  let nll := w_ll * ll + loggaussian_weight self * lg + perceptual_weight self * lp in
  let logits_fake := disc_forward (discriminator self) (tmap sigmoid mu) in
  let g := disc_loss self logits_fake None in
  dw <- adversarial_d_weight self nll g last_layer ;;
  Ok {| loglogitlaplace_loss := ll;
        loggaussian_loss := lg;
        perceptual_loss_value := lp;
        nll_loss := nll;
        g_loss := g;
        d_weight := dw;
        loss := nll + disc_factor self global_step * dw * g
                + codebook_weight self * codebook_loss |}.

(** Lines 130-140.  The fourth entry of the display reads the name
    [loglaplace_loss]; the function binds [loglogitlaplace_loss] (line 109)
    and nothing in the file binds the other, so evaluating the display
    stops there. *)
Definition generator_log (self : t) (split : string) (codebook_loss : R)
    (l : locals) : result (dict R) :=
  let total := (fmt split "total_loss", loss l) in
  let quant := (fmt split "quant_loss", codebook_loss) in
  let rec := (fmt split "rec_loss", nll_loss l) in
  loglaplace_loss <- Raise (NameError "loglaplace_loss") ;;
  let log :=
    dict_display
      [total; quant; rec;
       (fmt split "loglaplace_loss", loglaplace_loss);
       (fmt split "loggaussian_loss", loggaussian_loss l);
       (fmt split "perceptual_loss", perceptual_loss_value l);
       (fmt split "g_loss", g_loss l)] in
  Ok (if use_adaptive_adv self
      then dict_set (fmt split "d_weight") (d_weight l) log
      else log).

(** Lines 108-142, the branch [optimizer_idx == 0]. *)
Definition generator_update (self : t) (codebook_loss : R)
    (logit_inputs mu log_sigma : tensor) (global_step : Z)
    (last_layer : option RefTensor) (split : string) : result (R * dict R) :=
  l <- generator_loss self codebook_loss logit_inputs mu log_sigma global_step last_layer ;;
  log <- generator_log self split codebook_loss l ;;
  Ok (loss l, log).

(** Lines 162-164: [gradients_norm], the batch mean of the squared 2-norm
    of each sample's gradient. *)
Definition r1_gradients_norm (gradients : tensor) : R :=
  lmean (map (fun row => norm_row row ^ 2) (view_rows gradients)).

(** Lines 145-169, the branch [optimizer_idx == 1]. *)
Definition discriminator_update (self : t) (logit_inputs mu : tensor)
    (global_step : Z) (split : string) : result (R * dict R) :=
  let inputs := tmap sigmoid logit_inputs in
  let outputs := tmap sigmoid mu in
  let logits_real := disc_forward (discriminator self) inputs in
  let logits_fake := disc_forward (discriminator self) outputs in
  let d_loss := disc_factor self global_step * disc_loss self logits_fake (Some logits_real) in
  let log :=
    dict_display
      [(fmt split "disc_loss", d_loss);
       (fmt split "logits_real", mean logits_real);
       (fmt split "logits_fake", mean logits_fake)] in
  if training self && (global_step mod 16 =? 0)%Z
  then
    gradients <- disc_input_grad (discriminator self) inputs ;;
    let gradients_norm := r1_gradients_norm gradients in
    let d_loss := d_loss + 10 * gradients_norm / 2 in
    Ok (d_loss, dict_set (fmt split "r1_reg") gradients_norm log)
  else Ok (d_loss, log).

(** Lines 101-169.  A call with [optimizer_idx] other than 0 and 1 falls
    off the end of the function and returns [None]. *)
Definition forward (self : t) (codebook_loss : R) (inputs outputs : tensor)
    (optimizer_idx global_step : Z) (last_layer : option RefTensor)
    (split : string) : result (option (R * dict R)) :=
  ' (logit_inputs, mu, log_sigma) <- split_parameters inputs outputs ;;
  if (optimizer_idx =? 0)%Z
  then
    r <- generator_update self codebook_loss logit_inputs mu log_sigma
           global_step last_layer split ;;
    Ok (Some r)
  else if (optimizer_idx =? 1)%Z
  then
    r <- discriminator_update self logit_inputs mu global_step split ;;
    Ok (Some r)
  else Ok None.

End VQLPIPSWithDiscriminator.

(** ** The same statements over a store of tensor objects

    The functions above compute what a call returns.  This second reading
    of [VQLPIPSWithDiscriminator] keeps what they leave out: which tensor
    object each name is bound to, which objects share a storage (views from
    [chunk], the results of [detach], [contiguous] answering with the
    object itself), the [requires_grad] flag of every object, and the two
    in-place operations of the file, [inputs.requires_grad_()] (line 147)
    and [d_loss += ...] (line 165).  An expression made of out-of-place
    operations allocates one fresh tensor for its result; its temporaries
    are fresh as well and unreachable once it is evaluated. *)

Declare Scope store_scope.
Delimit Scope store_scope with store.

Module Store.

Definition ref := nat.

(** One step into a storage: piece [i] of its split in two along the
    channel axis, or sample [i] of the batch. *)
Inductive step : Type :=
| Piece (i : nat)
| Row (i : nat).

(** Which part of its storage a tensor object shows, outermost step first;
    the empty path is the whole storage. *)
Definition view := list step.

Record tobj : Type := {
  storage : nat;
  window : view;
  requires_grad : bool
}.

(** The store: tensor objects and storages, both addressed by position;
    [grad_mode] is [torch.is_grad_enabled()]; [disc_calls] lists the
    objects the discriminator has been called on, oldest first, each with
    its [requires_grad] flag at the time of the call. *)
Record heap : Type := {
  objects : list tobj;
  storages : list tensor;
  grad_mode : bool;
  disc_calls : list (ref * bool)
}.

Definition enter (s : step) (d : tensor) : tensor :=
  match s with
  | Piece i => nth i (chunk2 d) []
  | Row i => match nth_error d i with Some x => [x] | None => [] end
  end.

Definition show (w : view) (d : tensor) : tensor :=
  fold_left (fun d s => enter s d) w d.

Fixpoint update {A} (n : nat) (f : A -> A) (l : list A) : list A :=
  match l, n with
  | [], _ => []
  | a :: l', O => f a :: l'
  | a :: l', S n' => a :: update n' f l'
  end.

(** [d] with the part behind step [s] replaced by [part]. *)
Definition leave (s : step) (d part : tensor) : tensor :=
  match s with
  | Piece i =>
      let c := match d with x :: _ => length x | [] => O end in
      let k := Nat.div2 (S c) in
      match i with
      | O => zip_with (fun x p => p ++ skipn k x) d part
      | S O => zip_with (fun x p => firstn k x ++ p) d part
      | _ => d
      end
  | Row i => update i (fun x => hd x part) d
  end.

(** Writing [new] through view [w] of a storage holding [d]. *)
Fixpoint put (w : view) (d new : tensor) : tensor :=
  match w with
  | [] => new
  | s :: w' => leave s d (put w' (enter s d) new)
  end.

Definition dangling : tobj :=
  {| storage := O; window := []; requires_grad := false |}.

(** What object [r] shows, and its flag. *)
Definition data (h : heap) (r : ref) : tensor :=
  match nth_error (objects h) r with
  | Some o => show (window o) (nth (storage o) (storages h) [])
  | None => []
  end.

Definition flag (h : heap) (r : ref) : bool :=
  match nth_error (objects h) r with
  | Some o => requires_grad o
  | None => false
  end.

(** A zero-dimensional tensor, and the number it holds. *)
Definition scalar (x : R) : tensor := [[[x]]].
Definition item (t : tensor) : R := nth O (flatten t) 0.

(** A statement runs from a store to an outcome and a store; the store
    survives an exception. *)
Definition M (A : Type) : Type := heap -> result A * heap.

Definition ret {A} (a : A) : M A := fun h => (Ok a, h).

Definition raise {A} (e : exn) : M A := fun h => (Raise e, h).

Definition bind {A B} (c : M A) (k : A -> M B) : M B :=
  fun h =>
    match c h with
    | (Ok a, h') => k a h'
    | (Raise e, h') => (Raise e, h')
    end.

(** [try: c  except RuntimeError: handler]. *)
Definition except_RuntimeError {A} (c handler : M A) : M A :=
  fun h =>
    match c h with
    | (Raise RuntimeError, h') => handler h'
    | other => other
    end.

Definition assert (b : bool) : M unit :=
  if b then ret tt else raise AssertionError.

(** An outcome that does not touch the store. *)
Definition lift {A} (c : result A) : M A := fun h => (c, h).

Bind Scope store_scope with M.
Notation "x <- c ;; k" := (bind c (fun x => k))
  (at level 61, c at next level, right associativity) : store_scope.
Notation "' pat <- c ;; k" := (bind c (fun x => match x with pat => k end))
  (at level 61, pat pattern, c at next level, right associativity) : store_scope.
Local Open Scope store_scope.

(** A new tensor object on a new storage. *)
Definition alloc (d : tensor) (rg : bool) : M ref :=
  fun h =>
    (Ok (length (objects h)),
     {| objects := objects h
                   ++ [{| storage := length (storages h);
                          window := [];
                          requires_grad := rg |}];
        storages := storages h ++ [d];
        grad_mode := grad_mode h;
        disc_calls := disc_calls h |}).

(** The result of an out-of-place expression over the tensors
    [operands]: tracked when grad mode is on and an operand is. *)
Definition compute (operands : list ref) (f : list tensor -> tensor) : M ref :=
  fun h =>
    alloc (f (map (data h) operands))
          (grad_mode h && existsb (flag h) operands) h.

Definition compute1 (f : tensor -> tensor) (x : ref) : M ref :=
  compute [x] (fun ts => f (nth 0 ts [])).

Definition compute2 (f : tensor -> tensor -> tensor) (x y : ref) : M ref :=
  compute [x; y] (fun ts => f (nth 0 ts []) (nth 1 ts [])).

Definition compute3 (f : tensor -> tensor -> tensor -> tensor) (x y z : ref) : M ref :=
  compute [x; y; z] (fun ts => f (nth 0 ts []) (nth 1 ts []) (nth 2 ts [])).

Definition compute4 (f : tensor -> tensor -> tensor -> tensor -> tensor)
    (x y z u : ref) : M ref :=
  compute [x; y; z; u]
    (fun ts => f (nth 0 ts []) (nth 1 ts []) (nth 2 ts []) (nth 3 ts [])).

(** [torch.tensor(x)]. *)
Definition tensor_of_float (x : R) : M ref := alloc (scalar x) false.

(** [x.clone()]. *)
Definition clone (x : ref) : M ref := compute1 (fun d => d) x.

(** A new object on the storage of [x], seen through [w] more steps. *)
Definition alias (x : ref) (w : view) (rg : bool) : M ref :=
  fun h =>
    let o := nth x (objects h) dangling in
    (Ok (length (objects h)),
     {| objects := objects h
                   ++ [{| storage := storage o;
                          window := window o ++ w;
                          requires_grad := rg |}];
        storages := storages h;
        grad_mode := grad_mode h;
        disc_calls := disc_calls h |}).

(** [x.detach()]: a new object on the same storage, never tracked. *)
Definition detach (x : ref) : M ref := alias x [] false.

(** [x.view(shape)]: a new object on the same storage, showing the same
    elements. *)
Definition reshape (x : ref) : M ref :=
  fun h => alias x [] (grad_mode h && flag h x) h.

(** [x.requires_grad_()]: sets the flag of the object itself. *)
Definition requires_grad_ (x : ref) : M unit :=
  fun h =>
    (Ok tt,
     {| objects :=
          update x
            (fun o => {| storage := storage o;
                         window := window o;
                         requires_grad := true |})
            (objects h);
        storages := storages h;
        grad_mode := grad_mode h;
        disc_calls := disc_calls h |}).

(** [x += y]: writes the sum into the storage of [x], through its view. *)
Definition iadd (x y : ref) : M unit :=
  fun h =>
    match nth_error (objects h) x with
    | Some o =>
        (Ok tt,
         {| objects :=
              update x
                (fun o => {| storage := storage o;
                             window := window o;
                             requires_grad :=
                               requires_grad o || (grad_mode h && flag h y) |})
                (objects h);
            storages :=
              update (storage o)
                (fun d => put (window o) d (tmap2 Rplus (data h x) (data h y)))
                (storages h);
            grad_mode := grad_mode h;
            disc_calls := disc_calls h |})
    | None => (Ok tt, h)
    end.

(** [x.chunk(2, dim=1)]: views of [x], one per piece. *)
Definition chunk (x : ref) : M (list ref) :=
  fun h =>
    let rg := grad_mode h && flag h x in
    match chunk2 (data h x) with
    | [_; _] =>
        (a <- alias x [Piece 0] rg ;;
         b <- alias x [Piece 1] rg ;;
         ret [a; b]) h
    | _ =>
        (a <- alias x [Piece 0] rg ;;
         ret [a]) h
    end.

(** What a method call can be sent to on lines 103-104. *)
Inductive pyref : Type :=
| RTensor (r : ref)
| RTuple (rs : list ref).

(** [o.contiguous()]: a tensor that shows a whole storage answers with
    itself, a view with a copy; a tuple has no such attribute. *)
Definition contiguous (o : pyref) : M ref :=
  match o with
  | RTensor r =>
      fun h =>
        match window (nth r (objects h) dangling) with
        | [] => ret r h
        | _ => clone r h
        end
  | RTuple _ => raise (AttributeError "tuple" "contiguous")
  end.

(** [a, b = t] for a tensor [t]: views of its two samples. *)
Definition unpack2 (t : ref) : M (ref * ref) :=
  fun h =>
    let rg := grad_mode h && flag h t in
    match data h t with
    | [_; _] =>
        (a <- alias t [Row 0] rg ;;
         b <- alias t [Row 1] rg ;;
         ret (a, b)) h
    | _ => raise ValueError h
    end.

(** [torch.autograd.grad(loss, last_layer, retain_graph=True)[0]]: a new
    tensor, not tracked (no [create_graph]). *)
Definition autograd_grad (pick : RefTensor -> result tensor)
    (last_layer : option RefTensor) : M ref :=
  match Torch.autograd_grad pick last_layer with
  | Ok g => alloc g false
  | Raise e => raise e
  end.

Section Methods.

Import VQLPIPSWithDiscriminator.

Variable self : VQLPIPSWithDiscriminator.t.

(** [self.discriminator(x)]: the networks hold parameters that require
    grad, so their outputs are tracked whenever grad mode is on. *)
Definition call_discriminator (x : ref) : M ref :=
  fun h =>
    alloc (disc_forward (discriminator self) (data h x)) (grad_mode h)
      {| objects := objects h;
         storages := storages h;
         grad_mode := grad_mode h;
         disc_calls := disc_calls h ++ [(x, flag h x)] |}.

(** [self.perceptual_loss(a, b)]. *)
Definition call_perceptual_loss (a b : ref) : M ref :=
  fun h => alloc (perceptual_loss self (data h a) (data h b)) (grad_mode h) h.

(** [torch.autograd.grad(outputs=logits_real.sum(), inputs=inputs,
    create_graph=True)]: a new tensor that is itself differentiable. *)
Definition autograd_input_grad (inputs : ref) : M ref :=
  fun h =>
    match disc_input_grad (discriminator self) (data h inputs) with
    | Ok g => alloc g true h
    | Raise e => raise e h
    end.

(** A Python number: a float, or a tensor object. *)
Inductive number : Type :=
| Float (x : R)
| TensorRef (r : ref).

(** Lines 91-99. *)
Definition calculate_adaptive_factor (nll_loss g_loss : ref)
    (last_layer : option RefTensor) : M ref :=
  nll_grads <- autograd_grad grad_of_nll_loss last_layer ;;
  g_grads <- autograd_grad grad_of_g_loss last_layer ;;
  adapt_factor <-
    compute2 (fun n g => scalar (norm n / (norm g + 1 / 10000))) nll_grads g_grads ;;
  clamped <- compute1 (tmap (clamp 0 10000)) adapt_factor ;;
  detach clamped.

(** Lines 118-125.  [d_weight] starts as the float [adversarial_weight];
    [d_weight *= factor] rebinds the name to a new tensor. *)
Definition adversarial_d_weight (nll_loss g_loss : ref)
    (last_layer : option RefTensor) : M number :=
  except_RuntimeError
    (let d_weight := adversarial_weight self in
     if use_adaptive_adv self
     then
       factor <- calculate_adaptive_factor nll_loss g_loss last_layer ;;
       r <- compute1 (tmap (Rmult d_weight)) factor ;;
       ret (TensorRef r)
     else ret (Float d_weight))
    (_ <- assert (negb (training self)) ;;
     r <- tensor_of_float 0 ;;
     ret (TensorRef r)).

(** The local variables alive after line 128. *)
Record locals : Type := {
  loglogitlaplace_loss : ref;
  loggaussian_loss : ref;
  perceptual_loss_value : ref;
  nll_loss : ref;
  g_loss : ref;
  d_weight : number;
  loss : ref
}.

(** Lines 109-128. *)
Definition generator_loss (codebook_loss logit_inputs mu log_sigma : ref)
    (global_step : Z) (last_layer : option RefTensor) : M locals :=
  ll <- compute3 (fun li m ls => scalar (loglogitlaplace li m ls))
          logit_inputs mu log_sigma ;;
  lg <- compute2 (fun li m => scalar (loggaussian li m)) logit_inputs mu ;;
  a <- compute1 rescale mu ;;
  b <- compute1 rescale logit_inputs ;;
  p <- call_perceptual_loss a b ;;
  lp <- compute1 (fun t => scalar (mean t)) p ;;
  w_ll <- lift (getattr self "loglogitlaplace_weight") ;;
  nll <- compute3
           (fun x y z =>
              scalar (w_ll * item x + loggaussian_weight self * item y
                      + perceptual_weight self * item z))
           ll lg lp ;;
  fake <- compute1 (tmap sigmoid) mu ;;
  logits_fake <- call_discriminator fake ;;
  g <- compute1 (fun lf => scalar (disc_loss self lf None)) logits_fake ;;
  dw <- adversarial_d_weight nll g last_layer ;;
  total <-
    match dw with
    | Float w =>
        compute3
          (fun n x c =>
             scalar (item n + disc_factor self global_step * w * item x
                     + codebook_weight self * item c))
          nll g codebook_loss
    | TensorRef r =>
        compute4
          (fun n d x c =>
             scalar (item n + disc_factor self global_step * item d * item x
                     + codebook_weight self * item c))
          nll r g codebook_loss
    end ;;
  ret {| loglogitlaplace_loss := ll;
         loggaussian_loss := lg;
         perceptual_loss_value := lp;
         nll_loss := nll;
         g_loss := g;
         d_weight := dw;
         loss := total |}.

(** Lines 130-140. *)
Definition generator_log (split : string) (codebook_loss : ref) (l : locals)
  : M (dict ref) :=
  c <- clone (loss l) ;;
  total <- detach c ;;
  quant <- detach codebook_loss ;;
  rec <- detach (nll_loss l) ;;
  loglaplace_loss <- raise (NameError "loglaplace_loss") ;;
  laplace <- detach loglaplace_loss ;;
  gaussian <- detach (loggaussian_loss l) ;;
  perceptual <- detach (perceptual_loss_value l) ;;
  g <- detach (g_loss l) ;;
  let log :=
    dict_display
      [(fmt split "total_loss", total);
       (fmt split "quant_loss", quant);
       (fmt split "rec_loss", rec);
       (fmt split "loglaplace_loss", laplace);
       (fmt split "loggaussian_loss", gaussian);
       (fmt split "perceptual_loss", perceptual);
       (fmt split "g_loss", g)] in
  if use_adaptive_adv self
  then
    match d_weight l with
    | TensorRef r =>
        dw <- detach r ;;
        ret (dict_set (fmt split "d_weight") dw log)
    | Float _ => raise (AttributeError "float" "detach")
    end
  else ret log.

(** Lines 108-142, the branch [optimizer_idx == 0]. *)
Definition generator_update (codebook_loss logit_inputs mu log_sigma : ref)
    (global_step : Z) (last_layer : option RefTensor) (split : string)
  : M (ref * dict ref) :=
  l <- generator_loss codebook_loss logit_inputs mu log_sigma global_step last_layer ;;
  log <- generator_log split codebook_loss l ;;
  ret (loss l, log).

(** Lines 146-150.  Line 146 rebinds the names [inputs] and [outputs] to
    two new tensors; it is the new [inputs] that line 147 flags.  The
    result is [(inputs, logits_real, logits_fake)]. *)
Definition discriminator_logits (logit_inputs mu : ref) : M (ref * ref * ref) :=
  inputs <- compute1 (tmap sigmoid) logit_inputs ;;
  outputs <- compute1 (tmap sigmoid) mu ;;
  _ <- requires_grad_ inputs ;;
  logits_real <- call_discriminator inputs ;;
  fake <- detach outputs ;;
  logits_fake <- call_discriminator fake ;;
  ret (inputs, logits_real, logits_fake).

(** Lines 152-158: [d_loss] and the log. *)
Definition discriminator_loss (logits_real logits_fake : ref) (global_step : Z)
    (split : string) : M (ref * dict ref) :=
  adversarial <-
    compute2 (fun lf lr => scalar (disc_loss self lf (Some lr))) logits_fake logits_real ;;
  d_loss <- compute1 (tmap (Rmult (disc_factor self global_step))) adversarial ;;
  c <- clone d_loss ;;
  logged_loss <- detach c ;;
  real_detached <- detach logits_real ;;
  logged_real <- compute1 (fun t => scalar (mean t)) real_detached ;;
  fake_detached <- detach logits_fake ;;
  logged_fake <- compute1 (fun t => scalar (mean t)) fake_detached ;;
  ret (d_loss,
       dict_display
         [(fmt split "disc_loss", logged_loss);
          (fmt split "logits_real", logged_real);
          (fmt split "logits_fake", logged_fake)]).

(** Lines 161-164: [gradients_norm]. *)
Definition r1_norm (inputs logits_real : ref) : M ref :=
  total <- compute1 (fun t => scalar (sum t)) logits_real ;;
  gradients <- autograd_input_grad inputs ;;
  flat <- reshape gradients ;;
  compute1 (fun g => scalar (r1_gradients_norm g)) flat.

(** Lines 165-167: the penalty goes into [d_loss] in place. *)
Definition r1_penalty (d_loss gradients_norm : ref) (split : string)
    (log : dict ref) : M (dict ref) :=
  penalty <- compute1 (tmap (fun x => 10 * x / 2)) gradients_norm ;;
  _ <- iadd d_loss penalty ;;
  logged_norm <- detach gradients_norm ;;
  ret (dict_set (fmt split "r1_reg") logged_norm log).

(** Lines 145-169, the branch [optimizer_idx == 1]. *)
Definition discriminator_update (logit_inputs mu : ref) (global_step : Z)
    (split : string) : M (ref * dict ref) :=
  ' (inputs, logits_real, logits_fake) <- discriminator_logits logit_inputs mu ;;
  ' (d_loss, log) <- discriminator_loss logits_real logits_fake global_step split ;;
  if training self && (global_step mod 16 =? 0)%Z
  then
    gradients_norm <- r1_norm inputs logits_real ;;
    log <- r1_penalty d_loss gradients_norm split log ;;
    ret (d_loss, log)
  else ret (d_loss, log).

(** Lines 103-104. *)
Definition split_parameters (inputs outputs : ref) : M (ref * ref * ref) :=
  logits <- compute1 (tmap (logit eps)) inputs ;;
  logit_inputs <- contiguous (RTensor logits) ;;
  chunks <- chunk outputs ;;
  packed <- contiguous (RTuple chunks) ;;
  ' (mu, log_sigma) <- unpack2 packed ;;
  ret (logit_inputs, mu, log_sigma).

(** Lines 101-169. *)
Definition forward (codebook_loss inputs outputs : ref)
    (optimizer_idx global_step : Z) (last_layer : option RefTensor)
    (split : string) : M (option (ref * dict ref)) :=
  ' (logit_inputs, mu, log_sigma) <- split_parameters inputs outputs ;;
  if (optimizer_idx =? 0)%Z
  then
    r <- generator_update codebook_loss logit_inputs mu log_sigma
           global_step last_layer split ;;
    ret (Some r)
  else if (optimizer_idx =? 1)%Z
  then
    r <- discriminator_update logit_inputs mu global_step split ;;
    ret (Some r)
  else ret None.

End Methods.

(** Every tensor object and every storage of [h] is still there in [h'],
    at the same address and with the same contents. *)
Definition extends (h h' : heap) : Prop :=
  (exists objs, objects h' = objects h ++ objs)
  /\ (exists stors, storages h' = storages h ++ stors).

(** [r] is an object of [h] whose storage is in [h]. *)
Definition valid (h : heap) (r : ref) : Prop :=
  exists o, nth_error (objects h) r = Some o
            /\ (storage o < length (storages h))%nat.

(** [r] is a tensor object of [h] that shows the whole of storage [s]. *)
Definition whole (h : heap) (r : ref) (s : nat) : Prop :=
  exists o, nth_error (objects h) r = Some o
            /\ storage o = s /\ window o = []
            /\ (s < length (storages h))%nat.

(** [r] is a tensor of [h] and shows [v]. *)
Definition has (h : heap) (r : ref) (v : tensor) : Prop :=
  valid h r /\ data h r = v.

(** Going from [h] to [h'] no tensor of [h] changes what it shows, and
    none moves to another storage. *)
Definition keeps (h h' : heap) : Prop :=
  (forall y v, has h y v -> has h' y v)
  /\ (forall y s, whole h y s -> whole h' y s)
  /\ (length (storages h) <= length (storages h'))%nat.

(** The numbers held by the tensors of a log. *)
Definition read_log (h : heap) (log : dict ref) : dict R :=
  map (fun kv => (fst kv, item (data h (snd kv)))) log.

(** [h'] is [h] with new objects and storages behind it, and nothing else
    changed. *)
Definition appends (h h' : heap) : Prop :=
  extends h h'
  /\ grad_mode h' = grad_mode h
  /\ disc_calls h' = disc_calls h.

(** [x] was allocated after [h0], on a storage allocated after [h0]. *)
Definition owned (h0 h : heap) (x : ref) : Prop :=
  (length (objects h0) <= x)%nat
  /\ exists o, nth_error (objects h) x = Some o
               /\ (length (storages h0) <= storage o)%nat.

(** A statement that only allocates, whatever store it starts from and
    whether it returns or raises. *)
Definition allocating {A} (c : M A) : Prop :=
  forall h, extends h (snd (c h)).

(** A statement that only allocates and does not call the discriminator. *)
Definition quiet {A} (c : M A) : Prop :=
  forall h, appends h (snd (c h)).

End Store.

(** ** Inputs used in examples *)

Module Demo.

(** A discriminator whose logits are the pixels themselves, so that the
    gradient of [sum(logits)] is one at every pixel. *)
Definition pixel_disc : StyleDiscriminator :=
  {| disc_forward := fun x => x;
     disc_input_grad := fun x => Ok (tmap (fun _ => 1) x) |}.

(** A stand-in for the perceptual network: squared pixel differences. *)
Definition square_lpips (a b : tensor) : tensor :=
  tmap (fun x => x ^ 2) (tmap2 Rminus a b).

(** [VQLPIPSWithDiscriminator(disc_start=1)] with the defaults of
    [__init__]. *)
Definition fresh_instance : VQLPIPSWithDiscriminator.t :=
  {| VQLPIPSWithDiscriminator.training := true;
     VQLPIPSWithDiscriminator.perceptual_loss := square_lpips;
     VQLPIPSWithDiscriminator.codebook_weight := 1;
     VQLPIPSWithDiscriminator.loglaplace_weight := 1;
     VQLPIPSWithDiscriminator.loggaussian_weight := 1;
     VQLPIPSWithDiscriminator.perceptual_weight := 1;
     VQLPIPSWithDiscriminator.discriminator := pixel_disc;
     VQLPIPSWithDiscriminator.discriminator_iter_start := 1;
     VQLPIPSWithDiscriminator.disc_loss := hinge_d_loss;
     VQLPIPSWithDiscriminator.adversarial_weight := 1;
     VQLPIPSWithDiscriminator.use_adaptive_adv := true;
     VQLPIPSWithDiscriminator.instance_dict := [] |}.

(** One sample, one channel, one pixel of value [x]. *)
Definition pixel (x : R) : tensor := [[[x]]].

(** A reference tensor against which both gradients exist. *)
Definition traced (nll_grads g_grads : tensor) : RefTensor :=
  {| grad_of_nll_loss := Ok nll_grads; grad_of_g_loss := Ok g_grads |}.

(** A reference tensor with no gradient path to either loss. *)
Definition untraced : RefTensor :=
  {| grad_of_nll_loss := Raise RuntimeError; grad_of_g_loss := Raise RuntimeError |}.

(** A store that holds one tensor: a single pixel of value 0 on a storage
    of its own. *)
Definition one_pixel_store : Store.heap :=
  {| Store.objects :=
       [{| Store.storage := O; Store.window := []; Store.requires_grad := false |}];
     Store.storages := [pixel 0];
     Store.grad_mode := true;
     Store.disc_calls := [] |}.

End Demo.

(** Every element of the batch lies strictly between [eps] and [1 - eps]. *)
Definition strictly_inside (inputs : tensor) : Prop :=
  Forall (Forall (Forall (fun x => eps < x < 1 - eps))) inputs.

(** * Properties *)

(** ** The logit transform *)

Lemma clamp_inside lo hi x : lo <= x -> x <= hi -> clamp lo hi x = x.
Proof.
  intros Hlo Hhi. unfold clamp.
  rewrite Rmax_left by lra. now rewrite Rmin_left by lra.
Qed.

Lemma sigmoid_ln_odds z : 0 < z -> z < 1 -> sigmoid (ln (z / (1 - z))) = z.
Proof.
  intros H0 H1. unfold sigmoid.
  assert (Hq : 0 < z / (1 - z)) by (apply Rdiv_lt_0_compat; lra).
  rewrite exp_Ropp, exp_ln by exact Hq.
  field. lra.
Qed.

Lemma sigmoid_logit_scalar x : eps < x < 1 - eps -> sigmoid (logit eps x) = x.
Proof.
  unfold eps. intros [Hlo Hhi]. unfold logit.
  cbv zeta. rewrite clamp_inside by lra.
  apply sigmoid_ln_odds; lra.
Qed.

Lemma map_id_on {A} (f : A -> A) (l : list A) :
  Forall (fun a => f a = a) l -> map f l = l.
Proof.
  induction 1 as [|a l Ha _ IH]; cbn; [reflexivity|].
  now rewrite Ha, IH.
Qed.

Lemma tmap_tmap f g t : tmap f (tmap g t) = tmap (fun x => f (g x)) t.
Proof.
  unfold tmap. rewrite map_map.
  apply map_ext; intro s. rewrite map_map.
  apply map_ext; intro c. now rewrite map_map.
Qed.

(** C8.  On a batch whose values all lie strictly between eps and 1 - eps
    (eps = 1e-4), the logit of line 103 followed by the sigmoid of line 146
    gives the batch back: the discriminator branch's real image
    [logit_inputs.sigmoid()] is the caller's [inputs]. *)
Theorem sigmoid_logit_round_trip (inputs : tensor) :
  strictly_inside inputs ->
  tmap sigmoid (tmap (logit eps) inputs) = inputs.
Proof.
  intro Hin. rewrite tmap_tmap. unfold tmap.
  apply map_id_on.
  eapply Forall_impl; [|exact Hin]. intros s Hs.
  apply map_id_on.
  eapply Forall_impl; [|exact Hs]. intros c Hc.
  apply map_id_on.
  eapply Forall_impl; [|exact Hc]. intros x Hx.
  now apply sigmoid_logit_scalar.
Qed.

Lemma sigmoid_logit_round_trip_witness :
  strictly_inside [[[1 / 2; 1 / 4]; [3 / 4]]]
  /\ tmap sigmoid (tmap (logit eps) [[[1 / 2; 1 / 4]; [3 / 4]]])
     = [[[1 / 2; 1 / 4]; [3 / 4]]].
Proof.
  assert (H : strictly_inside [[[1 / 2; 1 / 4]; [3 / 4]]]).
  { unfold strictly_inside, eps. repeat constructor; lra. }
  split; [exact H|].
  exact (sigmoid_logit_round_trip _ H).
Defined.

(** ** Lines 38-39 and 103-104 *)

(** [chunk] returns a tuple, and a tuple has no [contiguous]: the second
    statement of either forward method raises, whatever the arguments. *)
Lemma split_parameters_raises inputs outputs :
  split_parameters inputs outputs = Raise (AttributeError "tuple" "contiguous").
Proof. reflexivity. Qed.

Lemma forward_raises self codebook_loss inputs outputs optimizer_idx global_step
    last_layer split :
  VQLPIPSWithDiscriminator.forward self codebook_loss inputs outputs
    optimizer_idx global_step last_layer split
  = Raise (AttributeError "tuple" "contiguous").
Proof. reflexivity. Qed.

(** ** Dictionaries and keys *)

Lemma fmt_eqb split a b : String.eqb (fmt split a) (fmt split b) = String.eqb a b.
Proof.
  unfold fmt. induction split as [|c s IH]; cbn.
  - reflexivity.
  - now rewrite Ascii.eqb_refl.
Qed.

Lemma dict_get_set_same {V} k (v : V) d : dict_get k (dict_set k v d) = Some v.
Proof.
  induction d as [|[k' v'] d IH]; cbn.
  - now rewrite String.eqb_refl.
  - destruct (String.eqb k' k) eqn:E; cbn.
    + now rewrite String.eqb_refl.
    + now rewrite E.
Qed.

Lemma dict_get_set_other {V} k k' (v : V) d :
  String.eqb k k' = false -> dict_get k' (dict_set k v d) = dict_get k' d.
Proof.
  intro Hk. induction d as [|[k0 v0] d IH]; cbn.
  - now rewrite Hk.
  - destruct (String.eqb k0 k) eqn:E; cbn.
    + apply String.eqb_eq in E. subst k0. now rewrite Hk.
    + now rewrite IH.
Qed.

Ltac dict_simpl :=
  repeat progress
    (cbn [dict_display dict_set dict_get fold_left fst snd app];
     rewrite ?fmt_eqb;
     cbn [String.eqb Ascii.eqb Bool.eqb]).

(** The three entries of the display of lines 155-158 have distinct keys,
    so the dict holds them as written. *)
Lemma discriminator_log_display {V} split (a b c : V) :
  dict_display
    [(fmt split "disc_loss", a); (fmt split "logits_real", b);
     (fmt split "logits_fake", c)]
  = [(fmt split "disc_loss", a); (fmt split "logits_real", b);
     (fmt split "logits_fake", c)].
Proof.
  unfold dict_display. dict_simpl. reflexivity.
Qed.

Lemma discriminator_log_r1 {V} split (a b c v : V) :
  dict_set (fmt split "r1_reg") v
    [(fmt split "disc_loss", a); (fmt split "logits_real", b);
     (fmt split "logits_fake", c)]
  = [(fmt split "disc_loss", a); (fmt split "logits_real", b);
     (fmt split "logits_fake", c); (fmt split "r1_reg", v)].
Proof.
  dict_simpl. reflexivity.
Qed.

Lemma discriminator_log_no_r1 {V} split (a b c : V) :
  dict_get (fmt split "r1_reg")
    [(fmt split "disc_loss", a); (fmt split "logits_real", b);
     (fmt split "logits_fake", c)] = None.
Proof.
  dict_simpl. reflexivity.
Qed.

(** ** The discriminator branch, lines 145-169 *)

Section DiscriminatorBranch.

Import VQLPIPSWithDiscriminator.

Variable self : VQLPIPSWithDiscriminator.t.
Variables logit_inputs mu : tensor.
Variable global_step : Z.
Variable split : string.

Let real := tmap sigmoid logit_inputs.
Let fake := tmap sigmoid mu.
Let logits_real := disc_forward (discriminator self) real.
Let logits_fake := disc_forward (discriminator self) fake.
Let adversarial := disc_factor self global_step * disc_loss self logits_fake (Some logits_real).
Let base_log : dict R :=
  [(fmt split "disc_loss", adversarial);
   (fmt split "logits_real", mean logits_real);
   (fmt split "logits_fake", mean logits_fake)].

(** The branch, with the dict written out. *)
Lemma discriminator_update_eq :
  discriminator_update self logit_inputs mu global_step split
  = if training self && (global_step mod 16 =? 0)%Z
    then
      gradients <- disc_input_grad (discriminator self) real ;;
      Ok (adversarial + 10 * r1_gradients_norm gradients / 2,
          base_log ++ [(fmt split "r1_reg", r1_gradients_norm gradients)])
    else Ok (adversarial, base_log).
Proof.
  unfold discriminator_update.
  rewrite discriminator_log_display.
  destruct (training self && (global_step mod 16 =? 0)%Z); [|reflexivity].
  fold real. destruct (disc_input_grad (discriminator self) real) as [g|e]; [|reflexivity].
  cbn [Py.bind]. now rewrite discriminator_log_r1.
Qed.

(** Outside training, or off the sixteenth steps, the branch returns the
    adversarial term alone and the log has no r1_reg entry. *)
Lemma r1_penalty_absent :
  training self && (global_step mod 16 =? 0)%Z = false ->
  discriminator_update self logit_inputs mu global_step split = Ok (adversarial, base_log)
  /\ dict_get (fmt split "r1_reg") base_log = None.
Proof.
  intro Hoff. rewrite discriminator_update_eq, Hoff.
  split; [reflexivity|]. apply discriminator_log_no_r1.
Qed.

(** In training, on every sixteenth step, and when autograd delivers the
    gradient of [logits_real.sum()] at the real image, the branch returns
    the adversarial term plus 10/2 times the batch mean of the squared
    per-sample gradient norms, and logs that mean under r1_reg. *)
Lemma r1_penalty_present gradients :
  training self = true ->
  (global_step mod 16 = 0)%Z ->
  disc_input_grad (discriminator self) real = Ok gradients ->
  exists log,
    discriminator_update self logit_inputs mu global_step split
    = Ok (adversarial + 10 / 2 * r1_gradients_norm gradients, log)
    /\ dict_get (fmt split "r1_reg") log = Some (r1_gradients_norm gradients)
    /\ dict_get (fmt split "disc_loss") log = Some adversarial.
Proof.
  intros Htrain Hstep Hgrad.
  rewrite discriminator_update_eq, Htrain, Hstep, Hgrad.
  cbn [andb Z.eqb Py.bind].
  eexists. split; [|split].
  - replace (10 * r1_gradients_norm gradients / 2)
      with (10 / 2 * r1_gradients_norm gradients) by lra.
    reflexivity.
  - unfold base_log. dict_simpl. reflexivity.
  - unfold base_log. dict_simpl. reflexivity.
Qed.

End DiscriminatorBranch.

(** ** The adaptive weight, lines 91-99 and 118-125 *)

Section AdaptiveWeight.

Import VQLPIPSWithDiscriminator.

Variable self : VQLPIPSWithDiscriminator.t.
Variables nll_loss g_loss : R.

Lemma norm_row_nonneg l : 0 <= norm_row l.
Proof. unfold norm_row. apply sqrt_pos. Qed.

Lemma norm_nonneg t : 0 <= norm t.
Proof. apply norm_row_nonneg. Qed.

Lemma clamp_bounds lo hi x : lo <= hi -> lo <= clamp lo hi x <= hi.
Proof.
  intro H. unfold clamp. split.
  - apply Rmin_glb; [apply Rmax_r | exact H].
  - apply Rmin_r.
Qed.

Lemma clamp_saturates lo hi x : lo < hi -> (clamp lo hi x = hi <-> hi <= x).
Proof.
  intro H. unfold clamp.
  apply Rmin_case_strong; apply Rmax_case_strong; intros; lra.
Qed.

(** With a gradient path, the factor is the clamped ratio of the norms. *)
Lemma adaptive_factor_value ref nll_grads g_grads :
  grad_of_nll_loss ref = Ok nll_grads ->
  grad_of_g_loss ref = Ok g_grads ->
  calculate_adaptive_factor self nll_loss g_loss (Some ref)
  = Ok (clamp 0 10000 (norm nll_grads / (norm g_grads + 1 / 10000))).
Proof.
  intros Hn Hg. unfold calculate_adaptive_factor, autograd_grad.
  now rewrite Hn, Hg.
Qed.

(** Without one, differentiating [nll_loss] already raises. *)
Lemma adaptive_factor_no_path ref :
  grad_of_nll_loss ref = Raise RuntimeError ->
  calculate_adaptive_factor self nll_loss g_loss (Some ref) = Raise RuntimeError.
Proof.
  intro Hn. unfold calculate_adaptive_factor, autograd_grad.
  now rewrite Hn.
Qed.

Lemma d_weight_constant last_layer :
  use_adaptive_adv self = false ->
  adversarial_d_weight self nll_loss g_loss last_layer = Ok (adversarial_weight self).
Proof. intro H. unfold adversarial_d_weight. now rewrite H. Qed.

Lemma d_weight_adaptive last_layer factor :
  use_adaptive_adv self = true ->
  calculate_adaptive_factor self nll_loss g_loss last_layer = Ok factor ->
  adversarial_d_weight self nll_loss g_loss last_layer
  = Ok (adversarial_weight self * factor).
Proof. intros H Hf. unfold adversarial_d_weight. now rewrite H, Hf. Qed.

(** The except clause: in evaluation mode the weight falls back to zero. *)
Lemma d_weight_eval_fallback last_layer :
  use_adaptive_adv self = true ->
  calculate_adaptive_factor self nll_loss g_loss last_layer = Raise RuntimeError ->
  training self = false ->
  adversarial_d_weight self nll_loss g_loss last_layer = Ok 0.
Proof.
  intros H Hf Ht. unfold adversarial_d_weight.
  now rewrite H, Hf, Ht.
Qed.

(** The except clause: in training mode the assertion fails. *)
Lemma d_weight_training_fatal last_layer :
  use_adaptive_adv self = true ->
  calculate_adaptive_factor self nll_loss g_loss last_layer = Raise RuntimeError ->
  training self = true ->
  adversarial_d_weight self nll_loss g_loss last_layer = Raise AssertionError.
Proof.
  intros H Hf Ht. unfold adversarial_d_weight.
  now rewrite H, Hf, Ht.
Qed.

(** Only RuntimeError is caught: the TypeError of a missing [last_layer]
    leaves the try statement in either mode. *)
Lemma d_weight_without_last_layer :
  use_adaptive_adv self = true ->
  adversarial_d_weight self nll_loss g_loss None = Raise TypeError.
Proof. intro H. unfold adversarial_d_weight. now rewrite H. Qed.

(** With [adversarial_weight = 0] the try statement leaves zero whenever it
    completes. *)
Lemma d_weight_zero last_layer dw :
  adversarial_weight self = 0 ->
  adversarial_d_weight self nll_loss g_loss last_layer = Ok dw ->
  dw = 0.
Proof.
  intros Hz. unfold adversarial_d_weight. rewrite Hz.
  destruct (use_adaptive_adv self).
  - destruct (calculate_adaptive_factor self nll_loss g_loss last_layer) as [f|e]; cbn.
    + intro E. injection E as <-. lra.
    + destruct e; cbn; try discriminate.
      destruct (training self); cbn; [discriminate|].
      intro E. now injection E as <-.
  - cbn. intro E. now injection E as <-.
Qed.

End AdaptiveWeight.

(** ** The generator branch, lines 108-142 *)

Section GeneratorBranch.

Import VQLPIPSWithDiscriminator.

Variable self : VQLPIPSWithDiscriminator.t.
Variable codebook_loss : R.
Variables logit_inputs mu log_sigma : tensor.
Variable global_step : Z.
Variable last_layer : option RefTensor.
Variable split : string.

Let terms := reconstruction_terms (perceptual_loss self) logit_inputs mu log_sigma.
Let logits_fake := disc_forward (discriminator self) (tmap sigmoid mu).
Let adversarial := disc_loss self logits_fake None.

(** An instance that [__init__] has just built has no
    [loglogitlaplace_weight], so line 113 raises. *)
Lemma generator_loss_without_attribute :
  dict_get "loglogitlaplace_weight" (instance_dict self) = None ->
  generator_loss self codebook_loss logit_inputs mu log_sigma global_step last_layer
  = Raise (AttributeError "VQLPIPSWithDiscriminator" "loglogitlaplace_weight").
Proof.
  intro Hnone. unfold generator_loss.
  destruct (reconstruction_terms _ _ _ _) as [[ll lg] lp].
  unfold getattr. cbn [String.eqb Ascii.eqb Bool.eqb].
  now rewrite Hnone.
Qed.

(** Were the attribute assigned (say [w]), lines 109-128 would compute the
    weighted sum and the total of line 128. *)
Lemma generator_loss_formula w dw :
  dict_get "loglogitlaplace_weight" (instance_dict self) = Some w ->
  let nll := w * fst (fst terms) + loggaussian_weight self * snd (fst terms)
             + perceptual_weight self * snd terms in
  adversarial_d_weight self nll adversarial last_layer = Ok dw ->
  generator_loss self codebook_loss logit_inputs mu log_sigma global_step last_layer
  = Ok {| loglogitlaplace_loss := fst (fst terms);
          loggaussian_loss := snd (fst terms);
          perceptual_loss_value := snd terms;
          nll_loss := nll;
          g_loss := adversarial;
          d_weight := dw;
          loss := nll + disc_factor self global_step * dw * adversarial
                  + codebook_weight self * codebook_loss |}.
Proof.
  intros Hw nll Hdw. unfold generator_loss.
  subst nll terms adversarial logits_fake.
  destruct (reconstruction_terms _ _ _ _) as [[ll lg] lp]. cbn [fst snd] in *.
  unfold getattr. cbn [String.eqb Ascii.eqb Bool.eqb].
  rewrite Hw. cbn [Py.bind]. rewrite Hdw. reflexivity.
Qed.

(** Line 133 reads an unbound name: the log is never built. *)
Lemma generator_log_raises l :
  generator_log self split codebook_loss l = Raise (NameError "loglaplace_loss").
Proof. reflexivity. Qed.

(** So the branch never reaches its return statement. *)
Lemma generator_update_never_returns :
  returns (generator_update self codebook_loss logit_inputs mu log_sigma
             global_step last_layer split) = false.
Proof.
  unfold generator_update.
  destruct (generator_loss _ _ _ _ _ _ _); reflexivity.
Qed.

(** With [adversarial_weight = 0] the total of line 128 has no adversarial
    term, whatever the try statement leaves in [d_weight]. *)
Lemma generator_loss_zero_weight :
  adversarial_weight self = 0 ->
  map_result loss
    (generator_loss self codebook_loss logit_inputs mu log_sigma global_step last_layer)
  = map_result (fun l => nll_loss l + codebook_weight self * codebook_loss)
      (generator_loss self codebook_loss logit_inputs mu log_sigma global_step last_layer).
Proof.
  intro Hz. unfold generator_loss.
  destruct (reconstruction_terms _ _ _ _) as [[ll lg] lp].
  destruct (getattr self "loglogitlaplace_weight") as [w|e]; [|reflexivity].
  cbn [Py.bind].
  match goal with
  | |- context [adversarial_d_weight self ?n ?g last_layer] =>
      destruct (adversarial_d_weight self n g last_layer) as [dw|e] eqn:Hdw;
      [apply (d_weight_zero self n g last_layer dw Hz) in Hdw; subst dw | reflexivity]
  end.
  cbn [Py.bind map_result loss nll_loss]. f_equal. lra.
Qed.

(** Before the warm-up is over the total of line 128 has no adversarial
    term either. *)
Lemma generator_loss_warm_up :
  (global_step < discriminator_iter_start self)%Z ->
  map_result loss
    (generator_loss self codebook_loss logit_inputs mu log_sigma global_step last_layer)
  = map_result (fun l => nll_loss l + codebook_weight self * codebook_loss)
      (generator_loss self codebook_loss logit_inputs mu log_sigma global_step last_layer).
Proof.
  intro Hlt. unfold generator_loss.
  destruct (reconstruction_terms _ _ _ _) as [[ll lg] lp].
  destruct (getattr self "loglogitlaplace_weight") as [w|e]; [|reflexivity].
  cbn [Py.bind].
  match goal with
  | |- context [adversarial_d_weight self ?n ?g last_layer] =>
      destruct (adversarial_d_weight self n g last_layer) as [dw|e]; [|reflexivity]
  end.
  cbn [Py.bind map_result loss nll_loss]. f_equal.
  unfold disc_factor.
  rewrite Z.geb_leb.
  replace (discriminator_iter_start self <=? global_step)%Z with false
    by (symmetry; apply Z.leb_gt; lia).
  lra.
Qed.

End GeneratorBranch.

(** ** What [__init__] builds *)

Section Construction.

Import VQLPIPSWithDiscriminator.

Lemma init_instance_dict lpips disc disc_start name cw lw gw pw aw adaptive self :
  init lpips disc disc_start name cw lw gw pw aw adaptive = Ok self ->
  instance_dict self = [] /\ training self = true.
Proof.
  unfold init.
  destruct (assert _) as [[]|e]; cbn [Py.bind]; [|discriminate].
  intro E. injection E as <-. now split.
Qed.

(** An unknown loss name fails the assertion of line 71. *)
Lemma init_unknown_loss lpips disc disc_start name cw lw gw pw aw adaptive :
  existsb (String.eqb name) ["hinge"; "vanilla"; "least_square"]%string = false ->
  init lpips disc disc_start name cw lw gw pw aw adaptive = Raise AssertionError.
Proof. intro H. unfold init. now rewrite H. Qed.

Lemma init_hinge lpips disc disc_start cw lw gw pw aw adaptive :
  exists self,
    init lpips disc disc_start "hinge" cw lw gw pw aw adaptive = Ok self
    /\ disc_loss self = hinge_d_loss
    /\ instance_dict self = [].
Proof. eexists. split; [reflexivity|]. now split. Qed.

End Construction.

(** ** The store: what a statement may touch *)

Section StoreFacts.

Import Store.

Lemma extends_refl h : extends h h.
Proof. split; exists []; now rewrite app_nil_r. Qed.

Lemma extends_trans h1 h2 h3 : extends h1 h2 -> extends h2 h3 -> extends h1 h3.
Proof.
  intros [[o1 Ho1] [s1 Hs1]] [[o2 Ho2] [s2 Hs2]]. split.
  - exists (o1 ++ o2). now rewrite Ho2, Ho1, app_assoc.
  - exists (s1 ++ s2). now rewrite Hs2, Hs1, app_assoc.
Qed.

Lemma appends_refl h : appends h h.
Proof. split; [apply extends_refl | now split]. Qed.

Lemma appends_trans h1 h2 h3 : appends h1 h2 -> appends h2 h3 -> appends h1 h3.
Proof.
  intros [E1 [G1 C1]] [E2 [G2 C2]]. split; [eapply extends_trans; eauto|].
  split; congruence.
Qed.

Lemma quiet_allocating {A} (c : M A) : quiet c -> allocating c.
Proof. intros H h. apply H. Qed.

Lemma quiet_ret {A} (a : A) : quiet (ret a).
Proof. intro h. apply appends_refl. Qed.

Lemma quiet_raise {A} e : quiet (@raise A e).
Proof. intro h. apply appends_refl. Qed.

Lemma quiet_lift {A} (c : result A) : quiet (lift c).
Proof. intro h. apply appends_refl. Qed.

Lemma quiet_assert b : quiet (assert b).
Proof. destruct b; [apply quiet_ret | apply quiet_raise]. Qed.

Lemma quiet_bind {A B} (c : M A) (k : A -> M B) :
  quiet c -> (forall a, quiet (k a)) -> quiet (bind c k).
Proof.
  intros Hc Hk h. unfold bind.
  specialize (Hc h). destruct (c h) as [[a|e] h1]; cbn [snd] in *.
  - eapply appends_trans; [exact Hc | apply Hk].
  - exact Hc.
Qed.

Lemma allocating_bind {A B} (c : M A) (k : A -> M B) :
  allocating c -> (forall a, allocating (k a)) -> allocating (bind c k).
Proof.
  intros Hc Hk h. unfold bind.
  specialize (Hc h). destruct (c h) as [[a|e] h1]; cbn [snd] in *.
  - eapply extends_trans; [exact Hc | apply Hk].
  - exact Hc.
Qed.

Lemma quiet_except {A} (c handler : M A) :
  quiet c -> quiet handler -> quiet (except_RuntimeError c handler).
Proof.
  intros Hc Hh h. unfold Store.except_RuntimeError.
  specialize (Hc h). destruct (c h) as [[a|e] h1]; cbn [snd] in *; [exact Hc|].
  destruct e; try exact Hc.
  eapply appends_trans; [exact Hc | apply Hh].
Qed.

Lemma quiet_alloc d rg : quiet (alloc d rg).
Proof.
  intro h. unfold alloc. cbn. split; [split; eexists; reflexivity | now split].
Qed.

Lemma quiet_compute ops f : quiet (compute ops f).
Proof. intro h. unfold compute. apply quiet_alloc. Qed.

Lemma quiet_alias x w rg : quiet (alias x w rg).
Proof.
  intro h. unfold alias. cbn. split; [split|now split].
  - eexists; reflexivity.
  - exists []. now rewrite app_nil_r.
Qed.

Lemma quiet_reshape x : quiet (reshape x).
Proof. intro h. unfold reshape. apply quiet_alias. Qed.

Lemma quiet_contiguous o : quiet (contiguous o).
Proof.
  destruct o as [r|rs]; [|apply quiet_raise].
  intro h. unfold contiguous.
  destruct (window _); [apply quiet_ret | apply quiet_compute].
Qed.

Lemma quiet_chunk x : quiet (chunk x).
Proof.
  intro h. unfold chunk. cbv zeta.
  destruct (chunk2 (data h x)) as [|a [|b [|c l]]];
    repeat (apply quiet_bind; [apply quiet_alias | intro]); apply quiet_ret.
Qed.

Lemma quiet_unpack2 t : quiet (unpack2 t).
Proof.
  intro h. unfold unpack2. cbv zeta.
  destruct (data h t) as [|a [|b [|c l]]]; try apply quiet_raise;
    repeat (apply quiet_bind; [apply quiet_alias | intro]); apply quiet_ret.
Qed.

Lemma quiet_autograd_grad pick ll : quiet (autograd_grad pick ll).
Proof.
  unfold autograd_grad. destruct (Torch.autograd_grad pick ll);
    [apply quiet_alloc | apply quiet_raise].
Qed.

Lemma quiet_call_perceptual_loss self a b : quiet (call_perceptual_loss self a b).
Proof. intro h. unfold call_perceptual_loss. apply quiet_alloc. Qed.

Lemma quiet_autograd_input_grad self x : quiet (autograd_input_grad self x).
Proof.
  intro h. unfold autograd_input_grad.
  destruct (disc_input_grad _ _); [apply quiet_alloc | apply quiet_raise].
Qed.

Lemma allocating_call_discriminator self x : allocating (call_discriminator self x).
Proof.
  intro h. unfold call_discriminator, alloc. cbn.
  split; eexists; reflexivity.
Qed.

Lemma nth_error_app_here {A} (l l' : list A) a :
  nth_error (l ++ a :: l') (length l) = Some a.
Proof. induction l; cbn; auto. Qed.

Lemma nth_error_app_plus {A} (l l' : list A) k :
  nth_error (l ++ l') (length l + k) = nth_error l' k.
Proof. induction l; cbn; auto. Qed.

Lemma nth_app_here {A} (l l' : list A) a d :
  nth (length l) (l ++ a :: l') d = a.
Proof. induction l; cbn; auto. Qed.

Lemma nth_app_plus {A} (l l' : list A) k d :
  nth (length l + k) (l ++ l') d = nth k l' d.
Proof. induction l; cbn; auto. Qed.

Lemma update_app_here {A} (l l' : list A) a f :
  update (length l) f (l ++ a :: l') = l ++ f a :: l'.
Proof. induction l; cbn; [reflexivity|]. now rewrite IHl. Qed.

Lemma update_app_plus {A} (l l' : list A) k f :
  update (length l + k) f (l ++ l') = l ++ update k f l'.
Proof. induction l; cbn; [destruct l'; reflexivity|]. now rewrite IHl. Qed.

Ltac norm_lists :=
  repeat (rewrite <- ?app_assoc; cbn [app];
          rewrite ?length_app; cbn [length]).

Lemma discriminator_logits_run self li mu h :
  let real := length (objects h) in
  exists logits_real logits_fake fake h',
    discriminator_logits self li mu h = (Ok (real, logits_real, logits_fake), h')
    /\ extends h h'
    /\ grad_mode h' = grad_mode h
    /\ disc_calls h' = disc_calls h ++ [(real, true); (fake, false)]
    /\ (real < fake)%nat
    /\ (real < logits_real)%nat.
Proof.
  destruct h as [objs stors gm calls]. cbv zeta. cbn [objects disc_calls grad_mode].
  unfold discriminator_logits.
  unfold compute1, detach.
  unfold bind at 1. unfold compute at 1. unfold alloc at 1.
  cbn [objects storages grad_mode disc_calls].
  set (o1 := Build_tobj _ _ _). set (d1 := tmap _ _).
  unfold bind at 1. unfold compute at 1. unfold alloc at 1.
  cbn [objects storages grad_mode disc_calls].
  set (o2 := Build_tobj _ _ _). set (d2 := tmap _ _).
  unfold bind at 1. unfold requires_grad_ at 1.
  cbn [objects storages grad_mode disc_calls].
  rewrite <- app_assoc. cbn [app]. rewrite update_app_here.
  set (o1' := Build_tobj _ _ _).
  unfold bind at 1. unfold call_discriminator at 1. unfold alloc at 1.
  cbn [objects storages grad_mode disc_calls].
  unfold flag at 1. cbn [objects]. rewrite nth_error_app_here.
  set (o3 := Build_tobj _ _ _). set (d3 := disc_forward _ _).
  unfold bind at 1. unfold alias at 1.
  cbn [objects storages grad_mode disc_calls].
  set (o4 := Build_tobj _ _ _).
  unfold bind at 1. unfold call_discriminator at 1. unfold alloc at 1.
  cbn [objects storages grad_mode disc_calls].
  set (o5 := Build_tobj _ _ _). set (d5 := disc_forward _ _).
  unfold ret.
  exists (length (objs ++ [o1'; o2])), (length (((objs ++ [o1'; o2]) ++ [o3]) ++ [o4])),
         (length ((objs ++ [o1'; o2]) ++ [o3])).
  eexists. split; [reflexivity|].
  cbn [objects storages grad_mode disc_calls].
  split; [|split; [reflexivity|split; [|split]]].
  - split; eexists; rewrite <- !app_assoc; reflexivity.
  - unfold flag. cbn [objects]. rewrite nth_error_app_here.
    rewrite <- app_assoc. reflexivity.
  - rewrite !length_app. cbn [length]. lia.
  - rewrite !length_app. cbn [length]. lia.
Qed.

Lemma discriminator_loss_run self lr lf gs split h :
  exists d_loss log h',
    discriminator_loss self lr lf gs split h = (Ok (d_loss, log), h')
    /\ appends h h'
    /\ owned h h' d_loss.
Proof.
  destruct h as [objs stors gm calls].
  unfold discriminator_loss, compute2, compute1, clone, detach, compute1.
  unfold bind at 1. unfold compute at 1. unfold alloc at 1.
  cbn [objects storages grad_mode disc_calls].
  set (o1 := Build_tobj _ _ _). set (d1 := scalar _).
  unfold bind at 1. unfold compute at 1. unfold alloc at 1.
  cbn [objects storages grad_mode disc_calls].
  set (o2 := Build_tobj _ _ _). set (d2 := tmap _ _).
  unfold bind at 1. unfold compute at 1. unfold alloc at 1.
  cbn [objects storages grad_mode disc_calls].
  set (o3 := Build_tobj _ _ _). set (d3 := nth _ _ _).
  unfold bind at 1. unfold alias at 1.
  cbn [objects storages grad_mode disc_calls].
  set (o4 := Build_tobj _ _ _).
  unfold bind at 1. unfold alias at 1.
  cbn [objects storages grad_mode disc_calls].
  set (o5 := Build_tobj _ _ _).
  unfold bind at 1. unfold compute at 1. unfold alloc at 1.
  cbn [objects storages grad_mode disc_calls].
  set (o6 := Build_tobj _ _ _). set (d6 := scalar _).
  unfold bind at 1. unfold alias at 1.
  cbn [objects storages grad_mode disc_calls].
  set (o7 := Build_tobj _ _ _).
  unfold bind at 1. unfold compute at 1. unfold alloc at 1.
  cbn [objects storages grad_mode disc_calls].
  set (o8 := Build_tobj _ _ _). set (d8 := scalar _).
  unfold ret.
  do 3 eexists. split; [reflexivity|].
  split; [split; [split|split; reflexivity]|].
  - cbn [objects]. eexists. rewrite <- !app_assoc. reflexivity.
  - cbn [storages]. eexists. rewrite <- !app_assoc. reflexivity.
  - split; cbn [objects storages].
    + rewrite length_app. lia.
    + exists o2. split.
      * rewrite <- !app_assoc. cbn [app].
        replace (length (objs ++ [o1])) with (length objs + 1)%nat
          by (rewrite length_app; reflexivity).
        now rewrite nth_error_app_plus.
      * subst o2. cbn [storage]. rewrite length_app. lia.
Qed.

End StoreFacts.

(** ** The store: the two branches *)

Section StoreFrame.

Import Store.

Variable self : VQLPIPSWithDiscriminator.t.

Ltac quiet_tac :=
  repeat first
    [ apply quiet_ret | apply quiet_raise | apply quiet_lift | apply quiet_assert
    | apply quiet_alloc | apply quiet_compute | apply quiet_alias
    | apply quiet_reshape | apply quiet_contiguous | apply quiet_chunk
    | apply quiet_unpack2 | apply quiet_autograd_grad
    | apply quiet_call_perceptual_loss | apply quiet_autograd_input_grad
    | apply quiet_except
    | apply quiet_bind; [|intros] ].

Lemma quiet_calculate_adaptive_factor nll g ll :
  quiet (calculate_adaptive_factor nll g ll).
Proof.
  unfold calculate_adaptive_factor, compute2, compute1, detach. quiet_tac.
Qed.

Lemma quiet_adversarial_d_weight nll g ll :
  quiet (adversarial_d_weight self nll g ll).
Proof.
  unfold adversarial_d_weight, compute1, tensor_of_float.
  apply quiet_except.
  - destruct (VQLPIPSWithDiscriminator.use_adaptive_adv self).
    + apply quiet_bind; [apply quiet_calculate_adaptive_factor | intro].
      quiet_tac.
    + quiet_tac.
  - quiet_tac.
Qed.

Lemma quiet_r1_norm inputs lr : quiet (r1_norm self inputs lr).
Proof. unfold r1_norm, compute1. quiet_tac. Qed.

Ltac quiet_prim :=
  solve [ apply quiet_calculate_adaptive_factor
        | apply quiet_adversarial_d_weight
        | apply quiet_r1_norm
        | quiet_tac ].

Ltac allocating_tac :=
  repeat (apply allocating_bind;
          [ first [ apply allocating_call_discriminator
                  | apply quiet_allocating; quiet_prim ]
          | intros ]).

Lemma allocating_generator_loss cl li mu ls gs ll :
  allocating (generator_loss self cl li mu ls gs ll).
Proof.
  unfold generator_loss, compute1, compute2, compute3, compute4.
  allocating_tac.
  apply allocating_bind; [|intros; apply quiet_allocating; quiet_prim].
  match goal with |- context [match ?d with Float _ => _ | TensorRef _ => _ end] =>
    destruct d end; apply quiet_allocating; quiet_prim.
Qed.

Lemma allocating_generator_log split cl l :
  allocating (generator_log self split cl l).
Proof.
  unfold generator_log, clone, compute1, detach.
  apply quiet_allocating. quiet_tac.
Qed.

Lemma allocating_generator_update cl li mu ls gs ll split :
  allocating (generator_update self cl li mu ls gs ll split).
Proof.
  unfold generator_update.
  apply allocating_bind; [apply allocating_generator_loss | intro l].
  apply allocating_bind; [apply allocating_generator_log | intro log].
  apply quiet_allocating, quiet_ret.
Qed.

Lemma quiet_split_parameters inputs outputs :
  quiet (split_parameters inputs outputs).
Proof.
  unfold split_parameters, compute1. quiet_tac.
Qed.

Lemma update_app_ge {A} (l l' : list A) n f :
  (length l <= n)%nat -> update n f (l ++ l') = l ++ update (n - length l) f l'.
Proof.
  intro H. replace n with (length l + (n - length l))%nat at 1 by lia.
  apply update_app_plus.
Qed.

Lemma extends_lengths h h' :
  extends h h' ->
  (length (objects h) <= length (objects h'))%nat
  /\ (length (storages h) <= length (storages h'))%nat.
Proof.
  intros [[objs Ho] [stors Hs]]. rewrite Ho, Hs, !length_app. lia.
Qed.

Lemma extends_object h h' x o :
  extends h h' -> nth_error (objects h) x = Some o ->
  nth_error (objects h') x = Some o.
Proof.
  intros [[objs Ho] _] Hx. rewrite Ho.
  rewrite nth_error_app1; [exact Hx|].
  apply nth_error_Some. congruence.
Qed.

Lemma owned_extends h0 h h' x : owned h0 h x -> extends h h' -> owned h0 h' x.
Proof.
  intros [Hx [o [Ho Hs]]] He. split; [exact Hx|].
  exists o. split; [eapply extends_object; eauto | exact Hs].
Qed.

Lemma owned_base h0 h1 h x : extends h0 h1 -> owned h1 h x -> owned h0 h x.
Proof.
  intros He [Hx [o [Ho Hs]]]. apply extends_lengths in He.
  split; [lia|]. exists o. split; [exact Ho | lia].
Qed.

(** The two in-place statements leave a prefix of the store alone when
    their target lies behind it. *)
Lemma requires_grad__extends h0 h x :
  extends h0 h -> (length (objects h0) <= x)%nat ->
  requires_grad_ x h = (Ok tt, snd (requires_grad_ x h))
  /\ extends h0 (snd (requires_grad_ x h)).
Proof.
  intros [[objs Ho] [stors Hs]] Hx. split; [reflexivity|].
  unfold requires_grad_. cbn [snd objects storages]. split.
  - rewrite Ho, update_app_ge by exact Hx. eexists; reflexivity.
  - exists stors. exact Hs.
Qed.

Lemma iadd_extends h0 h x y :
  extends h0 h -> owned h0 h x ->
  iadd x y h = (Ok tt, snd (iadd x y h))
  /\ extends h0 (snd (iadd x y h))
  /\ grad_mode (snd (iadd x y h)) = grad_mode h
  /\ disc_calls (snd (iadd x y h)) = disc_calls h.
Proof.
  intros [[objs Ho] [stors Hs]] [Hx [o [Hob Hst]]].
  unfold iadd. rewrite Hob. cbn [snd objects storages grad_mode disc_calls].
  split; [reflexivity|]. split; [|now split]. split.
  - rewrite Ho, update_app_ge by exact Hx. eexists; reflexivity.
  - rewrite Hs, update_app_ge by exact Hst. eexists; reflexivity.
Qed.

Lemma bind_ok {A B} (c : M A) (k : A -> M B) h a h' :
  c h = (Ok a, h') -> bind c k h = k a h'.
Proof. intro E. unfold bind. now rewrite E. Qed.

Lemma bind_raise {A B} (c : M A) (k : A -> M B) h e h' :
  c h = (Raise e, h') -> bind c k h = (Raise e, h').
Proof. intro E. unfold bind. now rewrite E. Qed.

Lemma compute_run ops f h :
  exists h', compute ops f h = (Ok (length (objects h)), h') /\ appends h h'.
Proof.
  eexists. split; [reflexivity|]. apply (quiet_compute ops f h).
Qed.

Lemma detach_run x h :
  exists h', detach x h = (Ok (length (objects h)), h') /\ appends h h'.
Proof.
  eexists. split; [reflexivity|]. apply (quiet_alias x [] false h).
Qed.

Lemma r1_penalty_extends h0 h d_loss gn split log :
  extends h0 h -> owned h0 h d_loss ->
  exists log' h',
    r1_penalty d_loss gn split log h = (Ok log', h')
    /\ extends h0 h'
    /\ grad_mode h' = grad_mode h
    /\ disc_calls h' = disc_calls h.
Proof.
  intros He Hown. unfold r1_penalty, compute1.
  match goal with
  | |- context [compute ?ops ?f] =>
      destruct (compute_run ops f h) as (h1 & Hc & E1 & G1 & C1)
  end.
  rewrite (bind_ok _ _ _ _ _ Hc).
  destruct (iadd_extends h0 h1 d_loss (length (objects h))) as [Hi [E2 [G2 C2]]].
  { eapply extends_trans; eauto. }
  { eapply owned_extends; eauto. }
  rewrite (bind_ok _ _ _ _ _ Hi).
  destruct (detach_run gn (snd (iadd d_loss (length (objects h)) h1)))
    as (h3 & Hd & E3 & G3 & C3).
  rewrite (bind_ok _ _ _ _ _ Hd).
  do 2 eexists. split; [reflexivity|].
  split; [eapply extends_trans; eauto|].
  split; congruence.
Qed.

(** The discriminator branch leaves every tensor of the store it starts
    from alone, whether it returns or raises; and the discriminator has
    seen two new tensors in between: the real image, flagged, and the fake
    one, detached. *)
Lemma discriminator_update_frame li mu gs split h :
  exists out h',
    discriminator_update self li mu gs split h = (out, h')
    /\ extends h h'
    /\ grad_mode h' = grad_mode h
    /\ exists fake,
         disc_calls h' = disc_calls h ++ [(length (objects h), true); (fake, false)]
         /\ (length (objects h) < fake)%nat.
Proof.
  unfold discriminator_update.
  destruct (discriminator_logits_run self li mu h)
    as (lr & lf & fake & h1 & Hrun1 & E1 & G1 & C1 & Hfake & _).
  rewrite (bind_ok _ _ _ _ _ Hrun1).
  destruct (discriminator_loss_run self lr lf gs split h1)
    as (d_loss & log & h2 & Hrun2 & [E2 [G2 C2]] & Hown).
  rewrite (bind_ok _ _ _ _ _ Hrun2).
  assert (E02 : extends h h2) by (eapply extends_trans; eauto).
  destruct (VQLPIPSWithDiscriminator.training self && (gs mod 16 =? 0)%Z).
  - pose proof (quiet_r1_norm (length (objects h)) lr h2) as [E3 [G3 C3]].
    destruct (r1_norm self (length (objects h)) lr h2) as [[gn|e] h3] eqn:Hrun3;
      cbn [snd] in E3, G3, C3.
    + rewrite (bind_ok _ _ _ _ _ Hrun3).
      destruct (r1_penalty_extends h h3 d_loss gn split log)
        as (log' & h4 & Hrun4 & E4 & G4 & C4).
      { eapply extends_trans; eauto. }
      { eapply owned_base; [exact E1|]. eapply owned_extends; eauto. }
      rewrite (bind_ok _ _ _ _ _ Hrun4).
      do 2 eexists. split; [reflexivity|].
      split; [exact E4|]. split; [congruence|].
      exists fake. split; [congruence | exact Hfake].
    + rewrite (bind_raise _ _ _ _ _ Hrun3).
      do 2 eexists. split; [reflexivity|].
      split; [eapply extends_trans; eauto|]. split; [congruence|].
      exists fake. split; [congruence | exact Hfake].
  - do 2 eexists. split; [reflexivity|].
    split; [exact E02|]. split; [congruence|].
    exists fake. split; [congruence | exact Hfake].
Qed.

Lemma allocating_discriminator_update li mu gs split :
  allocating (discriminator_update self li mu gs split).
Proof.
  intro h.
  destruct (discriminator_update_frame li mu gs split h) as (out & h' & E & He & _).
  now rewrite E.
Qed.

Lemma allocating_forward cl inputs outputs idx gs ll split :
  allocating (forward self cl inputs outputs idx gs ll split).
Proof.
  unfold forward.
  apply allocating_bind; [apply quiet_allocating, quiet_split_parameters|].
  intros [[li mu] ls].
  destruct (idx =? 0)%Z.
  - apply allocating_bind; [apply allocating_generator_update|].
    intro. apply quiet_allocating, quiet_ret.
  - destruct (idx =? 1)%Z.
    + apply allocating_bind; [apply allocating_discriminator_update|].
      intro. apply quiet_allocating, quiet_ret.
    + apply quiet_allocating, quiet_ret.
Qed.

End StoreFrame.

(** ** The store: reading back *)

Section StoreReads.

Import Store.

(** What was valid stays valid, and shows and flags the same, when the
    store only grows. *)
Lemma extends_read h h' x :
  extends h h' -> valid h x ->
  data h' x = data h x /\ flag h' x = flag h x /\ valid h' x.
Proof.
  intros [[objs Ho] [stors Hs]] (o & Hx & Hlt).
  assert (Hx' : nth_error (objects h') x = Some o).
  { rewrite Ho, nth_error_app1; [exact Hx|]. apply nth_error_Some. congruence. }
  unfold data, flag. rewrite Hx, Hx'. split; [|split].
  - rewrite Hs, app_nth1 by exact Hlt. reflexivity.
  - reflexivity.
  - exists o. split; [exact Hx'|]. rewrite Hs, length_app. lia.
Qed.

Lemma alloc_spec d rg h :
  let r := length (objects h) in
  exists h',
    alloc d rg h = (Ok r, h')
    /\ appends h h'
    /\ data h' r = d /\ flag h' r = rg /\ valid h' r.
Proof.
  cbv zeta. eexists. split; [reflexivity|].
  split; [apply (quiet_alloc d rg h)|].
  unfold data, flag, valid. cbn [objects storages].
  rewrite nth_error_app_here. cbn [storage window requires_grad show fold_left].
  rewrite nth_app_here. split; [reflexivity|]. split; [reflexivity|].
  eexists. split; [reflexivity|]. cbn [storage]. rewrite length_app. cbn. lia.
Qed.

Lemma compute_spec ops f h :
  let r := length (objects h) in
  exists h',
    compute ops f h = (Ok r, h')
    /\ appends h h'
    /\ data h' r = f (map (data h) ops)
    /\ flag h' r = grad_mode h && existsb (flag h) ops
    /\ valid h' r.
Proof. unfold compute. apply alloc_spec. Qed.

Lemma show_app w w' d : show (w ++ w') d = show w' (show w d).
Proof. unfold show. apply fold_left_app. Qed.

Lemma alias_spec x w rg h :
  valid h x ->
  let r := length (objects h) in
  exists h',
    alias x w rg h = (Ok r, h')
    /\ appends h h'
    /\ data h' r = show w (data h x) /\ flag h' r = rg /\ valid h' r.
Proof.
  intros (o & Hx & Hlt). cbv zeta. eexists. split; [reflexivity|].
  split; [apply (quiet_alias x w rg h)|].
  unfold data, flag, valid. cbn [objects storages].
  rewrite nth_error_app_here. cbn [storage window requires_grad].
  rewrite (nth_error_nth _ _ _ Hx), Hx, show_app.
  split; [reflexivity|]. split; [reflexivity|].
  eexists. split; [reflexivity|]. cbn [storage]. exact Hlt.
Qed.

Lemma item_scalar x : item (scalar x) = x.
Proof. reflexivity. Qed.

(** With a gradient path the factor comes back detached: a tensor that
    does not require grad, holding the clamped ratio of the two norms; and
    nothing that was in the store has changed. *)
Lemma calculate_adaptive_factor_run nll g ref nll_grads g_grads h :
  grad_of_nll_loss ref = Ok nll_grads ->
  grad_of_g_loss ref = Ok g_grads ->
  exists r h',
    calculate_adaptive_factor nll g (Some ref) h = (Ok r, h')
    /\ flag h' r = false
    /\ item (data h' r) = clamp 0 10000 (norm nll_grads / (norm g_grads + 1 / 10000))
    /\ extends h h'.
Proof.
  intros Hn Hg.
  unfold calculate_adaptive_factor, autograd_grad, Torch.autograd_grad.
  rewrite Hn, Hg. unfold compute2, compute1, detach.
  destruct (alloc_spec nll_grads false h) as (h1 & R1 & [E1 _] & D1 & F1 & V1).
  rewrite (bind_ok _ _ _ _ _ R1).
  destruct (alloc_spec g_grads false h1) as (h2 & R2 & [E2 _] & D2 & F2 & V2).
  rewrite (bind_ok _ _ _ _ _ R2).
  destruct (extends_read h1 h2 _ E2 V1) as (D1' & F1' & V1').
  match goal with
  | |- context [compute ?ops ?f] =>
      destruct (compute_spec ops f h2) as (h3 & R3 & [E3 _] & D3 & _ & V3)
  end.
  rewrite (bind_ok _ _ _ _ _ R3).
  match goal with
  | |- context [compute ?ops ?f] =>
      destruct (compute_spec ops f h3) as (h4 & R4 & [E4 _] & D4 & _ & V4)
  end.
  rewrite (bind_ok _ _ _ _ _ R4).
  destruct (alias_spec (length (objects h3)) [] false h4 V4)
    as (h5 & R5 & [E5 _] & D5 & F5 & V5).
  rewrite R5.
  do 2 eexists. split; [reflexivity|].
  split; [exact F5|]. split.
  - rewrite D5. cbn [show fold_left]. rewrite D4. cbn [map nth].
    rewrite D3. cbn [map nth]. rewrite D1', D1, D2. reflexivity.
  - repeat (eapply extends_trans; [eassumption|]). apply extends_refl.
Qed.

End StoreReads.

(** ** The store: the discriminator branch computes what the values say *)

Section StoreValues.

Import Store.

Variable self : VQLPIPSWithDiscriminator.t.

Lemma whole_valid h r s : whole h r s -> valid h r.
Proof. intros (o & Ho & Hs & _ & Hlt). exists o. split; [exact Ho | lia]. Qed.

Lemma keeps_refl h : keeps h h.
Proof. split; [|split]; auto. Qed.

Lemma keeps_trans h1 h2 h3 : keeps h1 h2 -> keeps h2 h3 -> keeps h1 h3.
Proof.
  intros (A1 & B1 & C1) (A2 & B2 & C2). split; [|split]; [auto | auto | lia].
Qed.

Lemma extends_keeps h h' : extends h h' -> keeps h h'.
Proof.
  intro E. split; [|split].
  - intros y v [Hv Hd]. destruct (extends_read h h' y E Hv) as (D & _ & V).
    split; [exact V | congruence].
  - intros y s (o & Ho & Hs & Hw & Hlt).
    exists o. split; [eapply extends_object; eauto|].
    split; [exact Hs|]. split; [exact Hw|].
    apply extends_lengths in E. lia.
  - apply extends_lengths in E. lia.
Qed.

(** An allocation: the new tensor shows [d] and sits alone on a new
    storage, behind every storage there was. *)
Lemma alloc_run d rg h :
  exists r h',
    alloc d rg h = (Ok r, h')
    /\ keeps h h'
    /\ has h' r d
    /\ whole h' r (length (storages h)).
Proof.
  destruct (alloc_spec d rg h) as (h' & R & [E _] & D & _ & V).
  exists (length (objects h)), h'. split; [exact R|].
  split; [now apply extends_keeps|]. split; [now split|].
  unfold alloc in R. injection R as <-.
  eexists. cbn [objects storages]. split; [apply nth_error_app_here|].
  cbn [storage window]. split; [reflexivity|]. split; [reflexivity|].
  rewrite length_app. cbn. lia.
Qed.

Lemma compute1_run f x v h :
  has h x v ->
  exists r h',
    compute1 f x h = (Ok r, h')
    /\ keeps h h'
    /\ has h' r (f v)
    /\ whole h' r (length (storages h)).
Proof.
  intros [_ Hd]. unfold compute1, compute. cbn [map nth]. rewrite Hd.
  apply alloc_run.
Qed.

Lemma compute2_run f x y v w h :
  has h x v -> has h y w ->
  exists r h',
    compute2 f x y h = (Ok r, h')
    /\ keeps h h'
    /\ has h' r (f v w)
    /\ whole h' r (length (storages h)).
Proof.
  intros [_ Hx] [_ Hy]. unfold compute2, compute. cbn [map nth]. rewrite Hx, Hy.
  apply alloc_run.
Qed.

Lemma call_discriminator_run x v h :
  has h x v ->
  exists r h',
    call_discriminator self x h = (Ok r, h')
    /\ keeps h h'
    /\ has h' r (disc_forward (VQLPIPSWithDiscriminator.discriminator self) v)
    /\ whole h' r (length (storages h)).
Proof.
  intros [_ Hd]. unfold call_discriminator. rewrite Hd.
  match goal with
  | |- context [alloc ?d ?rg ?h0] =>
      destruct (alloc_run d rg h0) as (r & h' & R & K & H & W)
  end.
  exists r, h'. split; [exact R|]. split; [|split; [exact H | exact W]].
  destruct K as (A & B & C). split; [|split].
  - intros y w [Hv Hy]. apply A. split; [exact Hv | exact Hy].
  - intros y s Hw. apply B. exact Hw.
  - exact C.
Qed.

(** [detach], and [view], of a tensor that shows a whole storage. *)
Lemma alias_run x v s rg h :
  has h x v -> whole h x s ->
  exists r h',
    alias x [] rg h = (Ok r, h')
    /\ keeps h h'
    /\ has h' r v
    /\ whole h' r s.
Proof.
  intros [Hv Hd] (o & Ho & Hs & Hw & Hlt).
  destruct (alias_spec x [] rg h Hv) as (h' & R & [E _] & D & _ & V).
  exists (length (objects h)), h'. split; [exact R|].
  split; [now apply extends_keeps|]. split.
  - split; [exact V|]. rewrite D. cbn [show fold_left]. exact Hd.
  - unfold alias in R. injection R as <-.
    eexists. cbn [objects storages]. split; [apply nth_error_app_here|].
    cbn [storage window]. rewrite (nth_error_nth _ _ _ Ho), Hs, Hw.
    split; [reflexivity|]. split; [reflexivity | exact Hlt].
Qed.

Lemma reshape_run x v s h :
  has h x v -> whole h x s ->
  exists r h',
    reshape x h = (Ok r, h')
    /\ keeps h h'
    /\ has h' r v
    /\ whole h' r s.
Proof. intros H W. unfold reshape. now apply alias_run. Qed.

Lemma nth_error_update {A} n m f (l : list A) :
  nth_error (update n f l) m
  = if Nat.eqb n m then option_map f (nth_error l m) else nth_error l m.
Proof.
  revert n m. induction l as [|a l IH]; intros n m.
  - destruct n, m; cbn; try reflexivity. now destruct (Nat.eqb n m).
  - destruct n, m; cbn; try reflexivity. apply IH.
Qed.

Lemma length_update {A} n f (l : list A) : length (update n f l) = length l.
Proof.
  revert n. induction l as [|a l IH]; intros [|n]; cbn; try reflexivity.
  now rewrite IH.
Qed.

Lemma nth_update_other {A} n m f (l : list A) d :
  n <> m -> nth m (update n f l) d = nth m l d.
Proof.
  revert n m. induction l as [|a l IH]; intros [|n] [|m] H; cbn; try reflexivity.
  - congruence.
  - apply IH. congruence.
Qed.

Lemma nth_update_same {A} n f (l : list A) d :
  (n < length l)%nat -> nth n (update n f l) d = f (nth n l d).
Proof.
  revert n. induction l as [|a l IH]; intros [|n] H; cbn in *; try lia.
  - reflexivity.
  - apply IH. lia.
Qed.

(** [requires_grad_] changes a flag and nothing else. *)
Lemma requires_grad__run x h :
  exists h', requires_grad_ x h = (Ok tt, h') /\ keeps h h'.
Proof.
  eexists. split; [reflexivity|].
  assert (Hobj : forall y o,
             nth_error (objects h) y = Some o ->
             exists o', nth_error
                          (update x (fun o => {| storage := storage o;
                                                 window := window o;
                                                 requires_grad := true |})
                             (objects h)) y = Some o'
                        /\ storage o' = storage o /\ window o' = window o).
  { intros y o Ho. rewrite nth_error_update, Ho.
    destruct (Nat.eqb x y); eexists; (split; [reflexivity|]); now split. }
  split; [|split].
  - intros y v [(o & Ho & Hlt) Hd].
    destruct (Hobj y o Ho) as (o' & Ho' & Hs & Hw).
    split.
    + exists o'. cbn [objects storages]. split; [exact Ho' | lia].
    + unfold data in *. cbn [objects storages]. rewrite Ho'. rewrite Ho in Hd.
      now rewrite Hs, Hw.
  - intros y s (o & Ho & Hs & Hw & Hlt).
    destruct (Hobj y o Ho) as (o' & Ho' & Hs' & Hw').
    exists o'. cbn [objects storages]. split; [exact Ho'|].
    split; [congruence|]. split; [congruence | exact Hlt].
  - cbn [storages]. lia.
Qed.

(** [x += y] on a tensor that shows the whole of storage [sx]: [x] shows
    the sum, and every tensor on another storage shows what it showed. *)
Lemma iadd_run x y sx vx vy h :
  whole h x sx -> has h x vx -> has h y vy ->
  exists h',
    iadd x y h = (Ok tt, h')
    /\ has h' x (tmap2 Rplus vx vy)
    /\ whole h' x sx
    /\ (forall z s v, whole h z s -> s <> sx -> has h z v -> has h' z v)
    /\ (forall z s, whole h z s -> whole h' z s).
Proof.
  intros (o & Ho & Hs & Hw & Hlt) [_ Hx] [_ Hy].
  unfold iadd. rewrite Ho, Hx, Hy, Hs, Hw. eexists. split; [reflexivity|].
  assert (Hobj : forall z oz,
             nth_error (objects h) z = Some oz ->
             exists o', nth_error
                          (update x (fun o0 => {| storage := storage o0;
                                                  window := window o0;
                                                  requires_grad :=
                                                    requires_grad o0
                                                    || (grad_mode h && flag h y) |})
                             (objects h)) z = Some o'
                        /\ storage o' = storage oz /\ window o' = window oz).
  { intros z oz Hz. rewrite nth_error_update, Hz.
    destruct (Nat.eqb x z); eexists; (split; [reflexivity|]); now split. }
  destruct (Hobj x o Ho) as (o' & Ho' & Hs' & Hw').
  split; [|split; [|split]].
  - split.
    + exists o'. cbn [objects storages]. split; [exact Ho'|].
      rewrite length_update. lia.
    + unfold data. cbn [objects storages]. rewrite Ho', Hs', Hw', Hs, Hw.
      cbn [show fold_left put]. now rewrite nth_update_same by exact Hlt.
  - exists o'. cbn [objects storages]. split; [exact Ho'|].
    split; [congruence|]. split; [congruence|]. rewrite length_update. exact Hlt.
  - intros z s v (oz & Hz & Hzs & Hzw & Hzlt) Hne [_ Hzd].
    destruct (Hobj z oz Hz) as (oz' & Hz' & Hzs' & Hzw').
    split.
    + exists oz'. cbn [objects storages]. split; [exact Hz'|].
      rewrite length_update. lia.
    + unfold data in *. cbn [objects storages]. rewrite Hz'. rewrite Hz in Hzd.
      rewrite Hzs', Hzw'. rewrite nth_update_other by congruence. exact Hzd.
  - intros z s (oz & Hz & Hzs & Hzw & Hzlt).
    destruct (Hobj z oz Hz) as (oz' & Hz' & Hzs' & Hzw').
    exists oz'. cbn [objects storages]. split; [exact Hz'|].
    split; [congruence|]. split; [congruence|]. rewrite length_update. exact Hzlt.
Qed.

End StoreValues.

Section StoreBlocks.

Import Store.

Variable self : VQLPIPSWithDiscriminator.t.

Let D := disc_forward (VQLPIPSWithDiscriminator.discriminator self).

Ltac carry K H := apply (proj1 K) in H.
Ltac carry_whole K W := apply (proj1 (proj2 K)) in W.

(** Lines 146-150 over the store. *)
Lemma discriminator_logits_values li mu vi vm h :
  has h li vi -> has h mu vm ->
  exists inputs lr lf sr sf h',
    discriminator_logits self li mu h = (Ok (inputs, lr, lf), h')
    /\ keeps h h'
    /\ has h' inputs (tmap sigmoid vi)
    /\ has h' lr (D (tmap sigmoid vi)) /\ whole h' lr sr
    /\ has h' lf (D (tmap sigmoid vm)) /\ whole h' lf sf.
Proof.
  intros Hli Hmu. unfold discriminator_logits, detach.
  destruct (compute1_run (tmap sigmoid) li vi h Hli) as (inputs & h1 & R1 & K1 & I & _).
  rewrite (bind_ok _ _ _ _ _ R1). carry K1 Hmu.
  destruct (compute1_run (tmap sigmoid) mu vm h1 Hmu) as (outputs & h2 & R2 & K2 & O & WO).
  rewrite (bind_ok _ _ _ _ _ R2). carry K2 I.
  destruct (requires_grad__run inputs h2) as (h3 & R3 & K3).
  rewrite (bind_ok _ _ _ _ _ R3). carry K3 I. carry K3 O. carry_whole K3 WO.
  destruct (call_discriminator_run self inputs _ h3 I) as (lr & h4 & R4 & K4 & L & WL).
  rewrite (bind_ok _ _ _ _ _ R4). carry K4 I. carry K4 O. carry_whole K4 WO.
  destruct (alias_run outputs _ _ false h4 O WO) as (fake & h5 & R5 & K5 & F & _).
  rewrite (bind_ok _ _ _ _ _ R5). carry K5 I. carry K5 L. carry_whole K5 WL.
  destruct (call_discriminator_run self fake _ h5 F) as (lf & h6 & R6 & K6 & LF & WLF).
  rewrite (bind_ok _ _ _ _ _ R6). carry K6 I. carry K6 L. carry_whole K6 WL.
  exists inputs, lr, lf. do 2 eexists. exists h6.
  split; [reflexivity|]. split.
  { repeat (eapply keeps_trans; [eassumption|]). apply keeps_refl. }
  split; [exact I|]. split; [exact L|]. split; [exact WL|].
  split; [exact LF | exact WLF].
Qed.

(** Lines 152-158 over the store: [d_loss], and a log whose three tensors
    sit on storages other than that of [d_loss]. *)
Lemma discriminator_loss_values lr lf vr vf sr sf gs split h :
  has h lr vr -> whole h lr sr -> has h lf vf -> whole h lf sf ->
  let adversarial :=
    tmap (Rmult (VQLPIPSWithDiscriminator.disc_factor self gs))
      (scalar (VQLPIPSWithDiscriminator.disc_loss self vf (Some vr))) in
  exists d_loss e1 e2 e3 sd s1 s2 s3 h',
    discriminator_loss self lr lf gs split h
    = (Ok (d_loss,
           [(fmt split "disc_loss", e1); (fmt split "logits_real", e2);
            (fmt split "logits_fake", e3)]), h')
    /\ keeps h h'
    /\ has h' d_loss adversarial /\ whole h' d_loss sd
    /\ has h' e1 adversarial /\ whole h' e1 s1 /\ s1 <> sd
    /\ has h' e2 (scalar (mean vr)) /\ whole h' e2 s2 /\ s2 <> sd
    /\ has h' e3 (scalar (mean vf)) /\ whole h' e3 s3 /\ s3 <> sd.
Proof.
  intros L WL LF WLF adversarial.
  unfold discriminator_loss, clone, detach.
  destruct (compute2_run
              (fun lf0 lr0 => scalar (VQLPIPSWithDiscriminator.disc_loss self lf0 (Some lr0)))
              lf lr vf vr h LF L) as (adv & h1 & R1 & K1 & A & _).
  rewrite (bind_ok _ _ _ _ _ R1). carry K1 L. carry_whole K1 WL. carry K1 LF. carry_whole K1 WLF.
  destruct (compute1_run (tmap (Rmult (VQLPIPSWithDiscriminator.disc_factor self gs)))
              adv _ h1 A) as (d_loss & h2 & R2 & K2 & DL & WD).
  rewrite (bind_ok _ _ _ _ _ R2). carry K2 L. carry_whole K2 WL. carry K2 LF. carry_whole K2 WLF.
  set (sd := length (storages h1)) in *.
  assert (Hsd2 : (sd < length (storages h2))%nat)
    by (destruct WD as (o & _ & Hs & _ & Hlt); exact Hlt).
  destruct (compute1_run (fun d => d) d_loss _ h2 DL) as (c & h3 & R3 & K3 & C & WC).
  rewrite (bind_ok _ _ _ _ _ R3).
  carry K3 L. carry_whole K3 WL. carry K3 LF. carry_whole K3 WLF. carry K3 DL. carry_whole K3 WD.
  destruct (alias_run c _ _ false h3 C WC) as (e1 & h4 & R4 & K4 & E1 & WE1).
  rewrite (bind_ok _ _ _ _ _ R4).
  carry K4 L. carry_whole K4 WL. carry K4 LF. carry_whole K4 WLF. carry K4 DL. carry_whole K4 WD.
  destruct (alias_run lr _ _ false h4 L WL) as (rd & h5 & R5 & K5 & RD & _).
  rewrite (bind_ok _ _ _ _ _ R5).
  carry K5 LF. carry_whole K5 WLF. carry K5 DL. carry_whole K5 WD. carry K5 E1. carry_whole K5 WE1.
  destruct (compute1_run (fun t => scalar (mean t)) rd _ h5 RD) as (e2 & h6 & R6 & K6 & E2 & WE2).
  rewrite (bind_ok _ _ _ _ _ R6).
  assert (Hsd5 : (sd < length (storages h5))%nat)
    by (destruct WD as (o & _ & Hs & _ & Hlt); exact Hlt).
  carry K6 LF. carry_whole K6 WLF. carry K6 DL. carry_whole K6 WD. carry K6 E1. carry_whole K6 WE1.
  destruct (alias_run lf _ _ false h6 LF WLF) as (fd & h7 & R7 & K7 & FD & _).
  rewrite (bind_ok _ _ _ _ _ R7).
  carry K7 DL. carry_whole K7 WD. carry K7 E1. carry_whole K7 WE1. carry K7 E2. carry_whole K7 WE2.
  destruct (compute1_run (fun t => scalar (mean t)) fd _ h7 FD) as (e3 & h8 & R8 & K8 & E3 & WE3).
  rewrite (bind_ok _ _ _ _ _ R8).
  assert (Hsd7 : (sd < length (storages h7))%nat)
    by (destruct WD as (o & _ & Hs & _ & Hlt); exact Hlt).
  carry K8 DL. carry_whole K8 WD. carry K8 E1. carry_whole K8 WE1. carry K8 E2. carry_whole K8 WE2.
  rewrite discriminator_log_display.
  exists d_loss, e1, e2, e3, sd. do 3 eexists. exists h8.
  split; [reflexivity|]. split.
  { repeat (eapply keeps_trans; [eassumption|]). apply keeps_refl. }
  split; [exact DL|]. split; [exact WD|].
  split; [exact E1|]. split; [exact WE1|]. split; [lia|].
  split; [exact E2|]. split; [exact WE2|]. split; [lia|].
  split; [exact E3|]. split; [exact WE3 | lia].
Qed.

Lemma compute_keeps ops f h :
  exists r h', compute ops f h = (Ok r, h') /\ keeps h h'.
Proof.
  destruct (compute_spec ops f h) as (h' & R & [E _] & _).
  exists (length (objects h)), h'. split; [exact R | now apply extends_keeps].
Qed.

(** Lines 161-164 over the store. *)
Lemma r1_norm_values inputs lr vi h :
  has h inputs vi ->
  match disc_input_grad (VQLPIPSWithDiscriminator.discriminator self) vi with
  | Ok g =>
      exists gn sg h',
        r1_norm self inputs lr h = (Ok gn, h')
        /\ keeps h h'
        /\ has h' gn (scalar (VQLPIPSWithDiscriminator.r1_gradients_norm g)) /\ whole h' gn sg
        /\ (length (storages h) <= sg)%nat
  | Raise e => exists h', r1_norm self inputs lr h = (Raise e, h') /\ keeps h h'
  end.
Proof.
  intro I. unfold r1_norm, compute1 at 1.
  match goal with
  | |- context [compute ?ops ?f] =>
      destruct (compute_keeps ops f h) as (total & h1 & R1 & K1)
  end.
  carry K1 I.
  destruct (disc_input_grad _ vi) as [g|e] eqn:Hg.
  - rewrite (bind_ok _ _ _ _ _ R1).
    assert (R2' : autograd_input_grad self inputs h1 = alloc g true h1).
    { unfold autograd_input_grad. destruct I as [_ Hd]. now rewrite Hd, Hg. }
    destruct (alloc_run g true h1) as (gr & h2 & R2 & K2 & G & WG).
    rewrite <- R2' in R2. rewrite (bind_ok _ _ _ _ _ R2).
    destruct (reshape_run gr _ _ h2 G WG) as (flat & h3 & R3 & K3 & F & _).
    rewrite (bind_ok _ _ _ _ _ R3).
    destruct (compute1_run (fun g0 => scalar (VQLPIPSWithDiscriminator.r1_gradients_norm g0)) flat _ h3 F)
      as (gn & h4 & R4 & K4 & N & WN).
    exists gn, (length (storages h3)), h4.
    split; [exact R4|]. split.
    { repeat (eapply keeps_trans; [eassumption|]). apply keeps_refl. }
    split; [exact N|]. split; [exact WN|].
    destruct K1 as (_ & _ & ?), K2 as (_ & _ & ?), K3 as (_ & _ & ?). lia.
  - rewrite (bind_ok _ _ _ _ _ R1).
    assert (R2 : autograd_input_grad self inputs h1 = (Raise e, h1)).
    { unfold autograd_input_grad. destruct I as [_ Hd]. now rewrite Hd, Hg. }
    rewrite (bind_raise _ _ _ _ _ R2).
    exists h1. split; [reflexivity | exact K1].
Qed.

(** Lines 165-167 over the store: the penalty reaches [d_loss] and no
    tensor on another storage. *)
Lemma r1_penalty_values d_loss gn sd sg vd vn split log h :
  whole h d_loss sd -> has h d_loss vd ->
  whole h gn sg -> has h gn vn -> sg <> sd ->
  exists e4 h',
    r1_penalty d_loss gn split log h
    = (Ok (dict_set (fmt split "r1_reg") e4 log), h')
    /\ has h' d_loss (tmap2 Rplus vd (tmap (fun x => 10 * x / 2) vn))
    /\ has h' e4 vn
    /\ (forall z s v, whole h z s -> s <> sd -> has h z v -> has h' z v).
Proof.
  intros WD DL WN N Hne. unfold r1_penalty, detach.
  destruct (compute1_run (tmap (fun x => 10 * x / 2)) gn _ h N)
    as (penalty & h1 & R1 & K1 & P & _).
  rewrite (bind_ok _ _ _ _ _ R1).
  pose proof K1 as K1'.
  carry_whole K1 WD. carry K1 DL. carry_whole K1 WN. carry K1 N.
  destruct (iadd_run d_loss penalty sd _ _ h1 WD DL P)
    as (h2 & R2 & DL2 & WD2 & Hothers & Hwhole).
  rewrite (bind_ok _ _ _ _ _ R2).
  assert (N2 : has h2 gn vn) by (apply (Hothers gn sg); assumption).
  assert (WN2 : whole h2 gn sg) by (apply Hwhole; assumption).
  destruct (alias_run gn _ _ false h2 N2 WN2) as (e4 & h3 & R3 & K3 & E4 & _).
  rewrite (bind_ok _ _ _ _ _ R3).
  exists e4, h3. split; [reflexivity|].
  split; [apply (proj1 K3); exact DL2|]. split; [exact E4|].
  intros z s v Wz Hs Hz.
  apply (proj1 K3). apply (Hothers z s); [|exact Hs|].
  - apply (proj1 (proj2 K1')). exact Wz.
  - apply (proj1 K1'). exact Hz.
Qed.

End StoreBlocks.

(** ** The example instance *)

Section DemoValues.

Import VQLPIPSWithDiscriminator.

Lemma sigmoid_0 : sigmoid 0 = 1 / 2.
Proof. unfold sigmoid. rewrite Ropp_0, exp_0. lra. Qed.

Lemma mean_pixel x : mean [[[x]]] = x.
Proof. unfold mean, lmean, flatten, view_rows. cbn. lra. Qed.

Lemma norm_row_single x : 0 <= x -> norm_row [x] = x.
Proof.
  intro H. unfold norm_row. cbn [map lsum fold_right].
  rewrite Rplus_0_r. now apply sqrt_square.
Qed.

Lemma r1_gradients_norm_pixel x : 0 <= x -> r1_gradients_norm [[[x]]] = x ^ 2.
Proof.
  intro H. unfold r1_gradients_norm, view_rows, lmean. cbn [map concat app lsum fold_right length].
  rewrite norm_row_single by exact H. cbn [INR]. lra.
Qed.

Lemma hinge_half : hinge_d_loss [[[1 / 2]]] (Some [[[1 / 2]]]) = 1.
Proof.
  unfold hinge_d_loss, tmap. cbn [map]. rewrite !mean_pixel.
  unfold relu. rewrite !Rmax_right by lra. lra.
Qed.

Lemma demo_discriminator_update gs :
  (1 <= gs)%Z ->
  discriminator_update Demo.fresh_instance (Demo.pixel 0) (Demo.pixel 0) gs "train"
  = if (gs mod 16 =? 0)%Z
    then Ok (1 + 10 * 1 / 2,
             [("train/disc_loss", 1); ("train/logits_real", 1 / 2);
              ("train/logits_fake", 1 / 2); ("train/r1_reg", 1)]%string)
    else Ok (1, [("train/disc_loss", 1); ("train/logits_real", 1 / 2);
                 ("train/logits_fake", 1 / 2)]%string).
Proof.
  intro Hgs. rewrite discriminator_update_eq.
  unfold Demo.pixel, Demo.fresh_instance, disc_factor, tmap.
  cbn [training discriminator disc_loss discriminator_iter_start
       Demo.pixel_disc disc_forward disc_input_grad map andb fmt String.append app Py.bind].
  rewrite !sigmoid_0.
  match goal with
  | |- context [hinge_d_loss ?a ?b] => rewrite (hinge_half : hinge_d_loss a b = 1)
  end.
  match goal with
  | |- context [mean ?a] => rewrite (mean_pixel (1 / 2) : mean a = 1 / 2)
  end.
  replace (gs >=? 1)%Z with true by (symmetry; apply Z.geb_le; lia).
  rewrite Rmult_1_l.
  destruct (gs mod 16 =? 0)%Z; [|reflexivity].
  match goal with
  | |- context [r1_gradients_norm ?a] =>
      rewrite (r1_gradients_norm_pixel 1 ltac:(lra) : r1_gradients_norm a = 1 ^ 2)
  end.
  replace (1 ^ 2) with 1 by lra. reflexivity.
Qed.

End DemoValues.

(** * The claims *)

Section Claims.

Import VQLPIPSWithDiscriminator.

(** C1.  A generator-phase call ([optimizer_idx = 0]) returns no loss at
    all: line 104 raises AttributeError on every call; entered with [mu]
    and [log_sigma] in hand, the branch never reaches its return statement
    either; and on an instance as [__init__] builds it, line 113 raises
    before [nll_loss] is bound. *)
Theorem generator_phase_returns_no_loss :
  (forall self codebook_loss inputs outputs global_step last_layer split,
      forward self codebook_loss inputs outputs 0 global_step last_layer split
      = Raise (AttributeError "tuple" "contiguous"))
  /\ (forall self codebook_loss logit_inputs mu log_sigma global_step last_layer split,
         returns (generator_update self codebook_loss logit_inputs mu log_sigma
                    global_step last_layer split) = false)
  /\ (forall lpips disc disc_start name cw lw gw pw aw adaptive
             codebook_loss logit_inputs mu log_sigma global_step last_layer,
         returns (self <- init lpips disc disc_start name cw lw gw pw aw adaptive ;;
                  generator_loss self codebook_loss logit_inputs mu log_sigma
                    global_step last_layer) = false).
Proof.
  split; [|split].
  - intros. apply forward_raises.
  - intros. apply generator_update_never_returns.
  - intros.
    destruct (init lpips disc disc_start name cw lw gw pw aw adaptive) as [self|e] eqn:E;
      [|reflexivity].
    apply init_instance_dict in E as [Hdict _]. cbn [Py.bind].
    rewrite generator_loss_without_attribute; [reflexivity|].
    now rewrite Hdict.
Qed.

(** C3.  On an instance built with [disc_loss='hinge'] the attribute
    [disc_loss] is the hinge loss, whose one-argument form is
    [-mean(logits_fake)]; but no generator-phase call gets as far as line
    115: the call raises on line 104, and the branch itself on line 113. *)
Theorem hinge_g_loss_never_computed lpips disc disc_start cw lw gw pw aw adaptive :
  exists self,
    init lpips disc disc_start "hinge" cw lw gw pw aw adaptive = Ok self
    /\ (forall logits_fake, disc_loss self logits_fake None = - mean logits_fake)
    /\ (forall codebook_loss logit_inputs mu log_sigma global_step last_layer,
           generator_loss self codebook_loss logit_inputs mu log_sigma
             global_step last_layer
           = Raise (AttributeError "VQLPIPSWithDiscriminator" "loglogitlaplace_weight"))
    /\ (forall codebook_loss inputs outputs global_step last_layer split,
           forward self codebook_loss inputs outputs 0 global_step last_layer split
           = Raise (AttributeError "tuple" "contiguous")).
Proof.
  destruct (init_hinge lpips disc disc_start cw lw gw pw aw adaptive)
    as (self & Hinit & Hloss & Hdict).
  exists self. split; [exact Hinit|]. split; [|split].
  - intro lf. now rewrite Hloss.
  - intros. apply generator_loss_without_attribute. now rewrite Hdict.
  - intros. apply forward_raises.
Qed.

(** C4.  A discriminator-phase call ([optimizer_idx = 1]) raises on line
    104 at every step, 16 included, so no penalty is ever added.  Lines
    145-169 on their own do what is claimed: on the example instance (in
    training) they add 10/2 times the squared-norm mean at step 16 and log
    it, and add and log nothing at step 15. *)
Theorem r1_penalty_never_reached :
  (forall self codebook_loss inputs outputs global_step last_layer split,
      forward self codebook_loss inputs outputs 1 global_step last_layer split
      = Raise (AttributeError "tuple" "contiguous"))
  /\ (exists log,
         discriminator_update Demo.fresh_instance (Demo.pixel 0) (Demo.pixel 0) 16 "train"
         = Ok (1 + 10 * 1 / 2, log)
         /\ dict_get "train/r1_reg" log = Some 1
         /\ dict_get "train/disc_loss" log = Some 1)
  /\ (exists log,
         discriminator_update Demo.fresh_instance (Demo.pixel 0) (Demo.pixel 0) 15 "train"
         = Ok (1, log)
         /\ dict_get "train/r1_reg" log = None).
Proof.
  split; [|split].
  - intros. apply forward_raises.
  - rewrite demo_discriminator_update by lia.
    eexists. split; [reflexivity|]. now split.
  - rewrite demo_discriminator_update by lia.
    eexists. split; [reflexivity|]. reflexivity.
Qed.

(** C6.  With no gradient path from [last_layer], the try statement of
    lines 118-125 does what is claimed: zero in evaluation mode,
    AssertionError in training mode.  But the call does not return normally
    in evaluation mode: it raises on line 104, and the branch never reaches
    its return statement. *)
Theorem no_gradient_path_call_raises :
  (forall nll_loss g_loss,
      adversarial_d_weight (set_training false Demo.fresh_instance) nll_loss g_loss
        (Some Demo.untraced) = Ok 0)
  /\ (forall nll_loss g_loss,
         adversarial_d_weight Demo.fresh_instance nll_loss g_loss
           (Some Demo.untraced) = Raise AssertionError)
  /\ (forall self codebook_loss inputs outputs global_step split,
         forward (set_training false self) codebook_loss inputs outputs 0
           global_step (Some Demo.untraced) split
         = Raise (AttributeError "tuple" "contiguous"))
  /\ (forall self codebook_loss logit_inputs mu log_sigma global_step split,
         returns (generator_update (set_training false self) codebook_loss
                    logit_inputs mu log_sigma global_step (Some Demo.untraced) split)
         = false).
Proof.
  split; [|split; [|split]].
  - intros. now apply d_weight_eval_fallback.
  - intros. now apply d_weight_training_fatal.
  - intros. apply forward_raises.
  - intros. apply generator_update_never_returns.
Qed.

(** C7.  With [adversarial_weight = 0] the total of line 128 is
    [nll_loss + codebook_weight * codebook_loss] whenever lines 109-128
    complete; but the call returns no loss: it raises on line 104, and the
    branch never reaches its return statement. *)
Theorem zero_adversarial_weight_call_raises :
  (forall self w codebook_loss logit_inputs mu log_sigma global_step last_layer,
      let unweighted := set_adversarial_weight 0 (setattr "loglogitlaplace_weight" w self) in
      map_result loss
        (generator_loss unweighted codebook_loss logit_inputs mu log_sigma
           global_step last_layer)
      = map_result (fun l => nll_loss l + codebook_weight self * codebook_loss)
          (generator_loss unweighted codebook_loss logit_inputs mu log_sigma
             global_step last_layer))
  /\ (forall self codebook_loss inputs outputs global_step last_layer split,
         forward (set_adversarial_weight 0 self) codebook_loss inputs outputs 0
           global_step last_layer split
         = Raise (AttributeError "tuple" "contiguous"))
  /\ (forall self codebook_loss logit_inputs mu log_sigma global_step last_layer split,
         returns (generator_update (set_adversarial_weight 0 self) codebook_loss
                    logit_inputs mu log_sigma global_step last_layer split)
         = false).
Proof.
  split; [|split].
  - intros. subst unweighted.
    apply (generator_loss_zero_weight
             (set_adversarial_weight 0 (setattr "loglogitlaplace_weight" w self))).
    reflexivity.
  - intros. apply forward_raises.
  - intros. apply generator_update_never_returns.
Qed.

(** C10.  Two calls of [VQLPIPS.forward] that agree on [codebook_loss],
    [inputs], [outputs] (and [split]) end the same way, whatever their
    [optimizer_idx], [global_step] and [last_layer]: the same loss and log,
    or the same exception. *)
Theorem vqlpips_forward_ignores_phase_step_and_layer
    self codebook_loss inputs outputs split
    optimizer_idx global_step last_layer
    optimizer_idx' global_step' last_layer' :
  VQLPIPS.forward self codebook_loss inputs outputs
    optimizer_idx global_step last_layer split
  = VQLPIPS.forward self codebook_loss inputs outputs
      optimizer_idx' global_step' last_layer' split.
Proof. unfold VQLPIPS.forward. reflexivity. Qed.

(** C2, as amended.  Before the warm-up is over ([global_step <
    disc_start]) [disc_factor] is 0; the adversarial term of the
    discriminator branch, which is what the log records as disc_loss, is 0
    whatever the discriminator answers; the branch returns 0 except in
    training on a sixteenth step, where it returns the R1 penalty alone;
    and the total of line 128 is [nll_loss + codebook_weight *
    codebook_loss], with nothing of [g_loss]. *)
Theorem warm_up_gate self codebook_loss logit_inputs mu log_sigma
    global_step last_layer split :
  (global_step < discriminator_iter_start self)%Z ->
  disc_factor self global_step = 0
  /\ discriminator_update self logit_inputs mu global_step split
     = (let real := tmap sigmoid logit_inputs in
        let log :=
          [(fmt split "disc_loss", 0);
           (fmt split "logits_real", mean (disc_forward (discriminator self) real));
           (fmt split "logits_fake",
            mean (disc_forward (discriminator self) (tmap sigmoid mu)))] in
        if training self && (global_step mod 16 =? 0)%Z
        then
          gradients <- disc_input_grad (discriminator self) real ;;
          Ok (10 / 2 * r1_gradients_norm gradients,
              log ++ [(fmt split "r1_reg", r1_gradients_norm gradients)])
        else Ok (0, log))
  /\ map_result loss
       (generator_loss self codebook_loss logit_inputs mu log_sigma
          global_step last_layer)
     = map_result (fun l => nll_loss l + codebook_weight self * codebook_loss)
         (generator_loss self codebook_loss logit_inputs mu log_sigma
            global_step last_layer).
Proof.
  intro Hlt.
  assert (Hzero : disc_factor self global_step = 0).
  { unfold disc_factor. rewrite Z.geb_leb.
    replace (discriminator_iter_start self <=? global_step)%Z with false
      by (symmetry; apply Z.leb_gt; lia).
    reflexivity. }
  split; [exact Hzero|]. split.
  - rewrite discriminator_update_eq, Hzero, Rmult_0_l. cbv zeta.
    destruct (training self && (global_step mod 16 =? 0)%Z); [|reflexivity].
    destruct (disc_input_grad _ _) as [g|e]; [|reflexivity].
    cbn [Py.bind].
    replace (0 + 10 * r1_gradients_norm g / 2)
      with (10 / 2 * r1_gradients_norm g) by lra.
    reflexivity.
  - now apply generator_loss_warm_up.
Qed.

Lemma warm_up_gate_witness :
  (0 < discriminator_iter_start Demo.fresh_instance)%Z
  /\ disc_factor Demo.fresh_instance 0 = 0
  /\ discriminator_update Demo.fresh_instance (Demo.pixel 0) (Demo.pixel 0) 0 "train"
     = Ok (10 / 2 * 1,
           [("train/disc_loss", 0); ("train/logits_real", 1 / 2);
            ("train/logits_fake", 1 / 2); ("train/r1_reg", 1)]%string).
Proof.
  assert (H : (0 < discriminator_iter_start Demo.fresh_instance)%Z) by reflexivity.
  split; [exact H|].
  destruct (warm_up_gate Demo.fresh_instance 0 (Demo.pixel 0) (Demo.pixel 0)
              (Demo.pixel 0) 0 None "train" H) as [Hf [Hd _]].
  split; [exact Hf|].
  rewrite Hd. unfold Demo.pixel, Demo.fresh_instance.
  cbn [training discriminator Demo.pixel_disc disc_forward disc_input_grad
       tmap map andb fmt String.append app Py.bind Z.eqb].
  change (0 mod 16)%Z with 0%Z. cbn [Z.eqb Py.bind].
  rewrite !sigmoid_0.
  match goal with
  | |- context [mean ?a] => rewrite (mean_pixel (1 / 2) : mean a = 1 / 2)
  end.
  match goal with
  | |- context [r1_gradients_norm ?a] =>
      rewrite (r1_gradients_norm_pixel 1 ltac:(lra) : r1_gradients_norm a = 1 ^ 2)
  end.
  replace (1 ^ 2) with 1 by lra. reflexivity.
Defined.

(** C2 as stated fails: in training, at step 0 of a warm-up that ends at
    step 1, the discriminator branch returns 5 (the R1 penalty), not 0. *)
Lemma warm_up_loss_not_zero :
  (0 < discriminator_iter_start Demo.fresh_instance)%Z
  /\ exists loss log,
       discriminator_update Demo.fresh_instance (Demo.pixel 0) (Demo.pixel 0) 0 "train"
       = Ok (loss, log)
       /\ loss = 5
       /\ loss <> 0.
Proof.
  split; [reflexivity|].
  rewrite discriminator_update_eq.
  unfold Demo.pixel, Demo.fresh_instance, disc_factor.
  cbn [training discriminator Demo.pixel_disc disc_forward disc_input_grad
       discriminator_iter_start disc_loss
       tmap map andb fmt String.append app Py.bind].
  change (0 mod 16)%Z with 0%Z. change (0 >=? 1)%Z with false.
  cbn [Z.eqb Py.bind].
  match goal with
  | |- context [r1_gradients_norm ?a] =>
      rewrite (r1_gradients_norm_pixel 1 ltac:(lra) : r1_gradients_norm a = 1 ^ 2)
  end.
  do 2 eexists. split; [reflexivity|]. split; lra.
Qed.

(** C5, as amended.  With adaptive weighting on and a gradient path from
    [last_layer], the factor is [clamp(norm(nll_grads) / (norm(g_grads) +
    1e-4), 0, 1e4)]; the try statement leaves [d_weight =
    adversarial_weight * factor]; the factor lies in [0, 1e4]; it reaches
    1e4 exactly when [norm(nll_grads) >= 1e4 * norm(g_grads) + 1]; and the
    tensor that [calculate_adaptive_factor] returns is detached: it does
    not require grad. *)
Theorem adaptive_factor_clamped self nll_loss g_loss ref nll_grads g_grads
    (nll g : Store.ref) (h : Store.heap) :
  use_adaptive_adv self = true ->
  grad_of_nll_loss ref = Ok nll_grads ->
  grad_of_g_loss ref = Ok g_grads ->
  let factor := clamp 0 10000 (norm nll_grads / (norm g_grads + 1 / 10000)) in
  calculate_adaptive_factor self nll_loss g_loss (Some ref) = Ok factor
  /\ adversarial_d_weight self nll_loss g_loss (Some ref)
     = Ok (adversarial_weight self * factor)
  /\ 0 <= factor <= 10000
  /\ (factor = 10000 <-> 10000 * norm g_grads + 1 <= norm nll_grads)
  /\ exists r h',
       Store.calculate_adaptive_factor nll g (Some ref) h = (Ok r, h')
       /\ Store.flag h' r = false
       /\ Store.item (Store.data h' r) = factor.
Proof.
  intros Hon Hn Hg factor.
  assert (Hval : calculate_adaptive_factor self nll_loss g_loss (Some ref) = Ok factor)
    by now apply adaptive_factor_value.
  split; [exact Hval|]. split; [now apply d_weight_adaptive|].
  split; [apply clamp_bounds; lra|]. split.
  - unfold factor. rewrite clamp_saturates by lra.
    pose proof (norm_nonneg g_grads) as Hg0.
    set (a := norm nll_grads). set (b := norm g_grads) in *.
    assert (Hq : a / (b + 1 / 10000) * (b + 1 / 10000) = a) by (field; lra).
    split; intro H; nra.
  - destruct (calculate_adaptive_factor_run nll g ref nll_grads g_grads h Hn Hg)
      as (r & h' & Hrun & Hflag & Hitem & _).
    exists r, h'.
    split; [exact Hrun|]. split; [exact Hflag | exact Hitem].
Qed.

Lemma adaptive_factor_clamped_witness :
  use_adaptive_adv Demo.fresh_instance = true
  /\ 0 <= clamp 0 10000 (norm (Demo.pixel 1) / (norm (Demo.pixel 0) + 1 / 10000))
       <= 10000.
Proof.
  split; [reflexivity|].
  exact (proj1 (proj2 (proj2
    (adaptive_factor_clamped Demo.fresh_instance 0 0
       (Demo.traced (Demo.pixel 1) (Demo.pixel 0)) (Demo.pixel 1) (Demo.pixel 0)
       O O {| Store.objects := []; Store.storages := [];
            Store.grad_mode := true; Store.disc_calls := [] |}
       eq_refl eq_refl eq_refl)))).
Defined.

(** C5 as stated fails: with a zero gradient of [g_loss] (norm 0) and a
    gradient of [nll_loss] of norm 1/2, the factor is 5000, not 1e4. *)
Lemma adaptive_factor_not_saturated :
  norm (Demo.pixel 0) = 0
  /\ calculate_adaptive_factor Demo.fresh_instance 0 0
       (Some (Demo.traced (Demo.pixel (1 / 2)) (Demo.pixel 0))) = Ok 5000
  /\ 5000 <> 10000.
Proof.
  assert (H0 : norm (Demo.pixel 0) = 0).
  { unfold Demo.pixel. apply (norm_row_single 0). lra. }
  assert (Hh : norm (Demo.pixel (1 / 2)) = 1 / 2).
  { unfold Demo.pixel. apply (norm_row_single (1 / 2)). lra. }
  split; [exact H0|]. split; [|lra].
  rewrite (adaptive_factor_value Demo.fresh_instance 0 0 _ (Demo.pixel (1 / 2)) (Demo.pixel 0))
    by reflexivity.
  rewrite H0, Hh.
  replace (1 / 2 / (0 + 1 / 10000)) with 5000 by lra.
  f_equal. apply clamp_inside; lra.
Qed.

(** C9.  No call changes a tensor the caller holds.  Whatever the store
    [h] and the arguments, a generator-phase call followed by a
    discriminator-phase call at the same step leaves every tensor object
    and every storage of [h] in place, with the same contents and flags;
    so does any single call, returning or raising, and so does either
    branch entered on its own.  In the discriminator branch the
    discriminator is called on two tensors created by the branch: the real
    image, flagged [requires_grad] (its address is the first free one of
    [h]), and the fake one, detached. *)
Theorem calls_leave_arguments_unchanged self codebook_loss inputs outputs
    global_step last_layer split (h : Store.heap) :
  let after_generator :=
    snd (Store.forward self codebook_loss inputs outputs 0 global_step
           last_layer split h) in
  let after_both :=
    snd (Store.forward self codebook_loss inputs outputs 1 global_step
           last_layer split after_generator) in
  Store.extends h after_generator
  /\ Store.extends h after_both
  /\ (forall x, Store.valid h x ->
        Store.data after_both x = Store.data h x
        /\ Store.flag after_both x = Store.flag h x)
  /\ (forall optimizer_idx,
        Store.extends h
          (snd (Store.forward self codebook_loss inputs outputs optimizer_idx
                  global_step last_layer split h)))
  /\ (forall logit_inputs mu log_sigma,
        Store.extends h
          (snd (Store.generator_update self codebook_loss logit_inputs mu
                  log_sigma global_step last_layer split h)))
  /\ (forall logit_inputs mu,
        exists out h' fake,
          Store.discriminator_update self logit_inputs mu global_step split h
          = (out, h')
          /\ Store.extends h h'
          /\ Store.disc_calls h'
             = Store.disc_calls h ++ [(length (Store.objects h), true); (fake, false)]
          /\ (length (Store.objects h) < fake)%nat).
Proof.
  cbv zeta.
  assert (H1 : forall idx h0,
             Store.extends h0
               (snd (Store.forward self codebook_loss inputs outputs idx
                       global_step last_layer split h0)))
    by (intros; apply allocating_forward).
  assert (H2 : Store.extends h
                 (snd (Store.forward self codebook_loss inputs outputs 1
                         global_step last_layer split
                         (snd (Store.forward self codebook_loss inputs outputs 0
                                 global_step last_layer split h)))))
    by (eapply extends_trans; apply H1).
  split; [apply H1|]. split; [exact H2|]. split; [|split; [|split]].
  - intros x Hx. destruct (extends_read _ _ x H2 Hx) as (Hd & Hf & _).
    now split.
  - intro idx. apply H1.
  - intros. apply allocating_generator_update.
  - intros li mu.
    destruct (discriminator_update_frame self li mu global_step split h)
      as (out & h' & Hrun & He & _ & fake & Hcalls & Hfake).
    exists out, h', fake.
    split; [exact Hrun|]. split; [exact He|]. split; [exact Hcalls | exact Hfake].
Qed.

End Claims.

(** * Further properties of the code *)

Section Further.

Import VQLPIPSWithDiscriminator.


(** X2.  Neither forward method can return: the second statement of each
    (lines 39 and 104) calls [contiguous] on the tuple that [chunk]
    returns, and raises AttributeError whatever the instance, the
    arguments and the phase index. *)
Theorem forward_always_raises :
  (forall self codebook_loss inputs outputs optimizer_idx global_step last_layer split,
      VQLPIPS.forward self codebook_loss inputs outputs optimizer_idx global_step
        last_layer split
      = Raise (AttributeError "tuple" "contiguous"))
  /\ (forall self codebook_loss inputs outputs optimizer_idx global_step last_layer split,
         forward self codebook_loss inputs outputs optimizer_idx global_step
           last_layer split
         = Raise (AttributeError "tuple" "contiguous")).
Proof. split; reflexivity. Qed.

(** X3.  The body of [VQLPIPS.forward] past line 39 cannot return either.
    On an instance as [__init__] builds it, line 45 raises AttributeError
    ([loglogitlaplace_weight] is never set).  Were the attribute assigned,
    lines 41-46 would bind [loss] to the weighted sum of the three terms
    plus [codebook_weight * codebook_loss], and line 51 would then raise
    NameError ([loglaplace_loss] is never bound). *)
Theorem vqlpips_body_never_returns lpips cw lw gw pw
    codebook_loss logit_inputs mu log_sigma split :
  VQLPIPS.objective (VQLPIPS.init lpips cw lw gw pw) codebook_loss
    logit_inputs mu log_sigma
  = Raise (AttributeError "VQLPIPS" "loglogitlaplace_weight")
  /\ (forall w,
        let patched :=
          {| VQLPIPS.perceptual_loss := lpips;
             VQLPIPS.codebook_weight := cw;
             VQLPIPS.loglaplace_weight := lw;
             VQLPIPS.loggaussian_weight := gw;
             VQLPIPS.perceptual_weight := pw;
             VQLPIPS.instance_dict := [("loglogitlaplace_weight"%string, w)] |} in
        exists l,
          VQLPIPS.objective patched codebook_loss logit_inputs mu log_sigma = Ok l
          /\ VQLPIPS.loss l
             = w * loglogitlaplace logit_inputs mu log_sigma
               + gw * loggaussian logit_inputs mu
               + pw * mean (lpips (rescale mu) (rescale logit_inputs))
               + cw * codebook_loss
          /\ VQLPIPS.build_log split codebook_loss l
             = Raise (NameError "loglaplace_loss")).
Proof.
  split.
  - reflexivity.
  - intros w patched. eexists. split; [reflexivity|]. split; reflexivity.
Qed.

(** X4.  For every input value, in range or not, the logit of line 103
    followed by the sigmoid of line 146 is the clamp to [eps, 1 - eps]: the
    real image the discriminator sees is the caller's image clamped
    (values at 0 or 1 come back as 1e-4 and 1 - 1e-4). *)
Theorem sigmoid_logit_is_clamp (inputs : tensor) :
  tmap sigmoid (tmap (logit eps) inputs) = tmap (clamp eps (1 - eps)) inputs.
Proof.
  rewrite tmap_tmap. unfold tmap.
  apply map_ext; intro s. apply map_ext; intro c. apply map_ext; intro x.
  unfold logit. cbv zeta.
  assert (H : eps <= clamp eps (1 - eps) x <= 1 - eps)
    by (apply clamp_bounds; unfold eps; lra).
  unfold eps in H. apply sigmoid_ln_odds; unfold eps; lra.
Qed.



(** X6.  With a gradient path, the adaptive factor is at most 1e4 times
    the norm of the gradient of [nll_loss], whatever the gradient of
    [g_loss]; and it is zero exactly when the gradient of [nll_loss] has
    norm zero. *)
Theorem adaptive_factor_follows_nll_gradient self nll_loss g_loss nll_grads g_grads :
  exists factor,
    calculate_adaptive_factor self nll_loss g_loss
      (Some {| grad_of_nll_loss := Ok nll_grads; grad_of_g_loss := Ok g_grads |})
    = Ok factor
    /\ factor <= 10000 * norm nll_grads
    /\ (factor = 0 <-> norm nll_grads = 0).
Proof.
  eexists. split; [reflexivity|].
  pose proof (norm_nonneg nll_grads) as Ha. pose proof (norm_nonneg g_grads) as Hb.
  set (a := norm nll_grads) in *. set (b := norm g_grads) in *.
  assert (Hd : 0 < b + 1 / 10000) by lra.
  assert (Hq : a / (b + 1 / 10000) * (b + 1 / 10000) = a) by (field; lra).
  assert (Hq0 : 0 <= a / (b + 1 / 10000)).
  { apply Rmult_le_pos; [exact Ha|]. apply Rlt_le, Rinv_0_lt_compat, Hd. }
  assert (Hle : a / (b + 1 / 10000) <= 10000 * a) by nra.
  unfold clamp. rewrite Rmax_left by exact Hq0.
  split.
  - apply Rle_trans with (a / (b + 1 / 10000)); [apply Rmin_l | exact Hle].
  - split.
    + apply Rmin_case_strong; intros; nra.
    + intro H0. rewrite H0. unfold Rdiv. rewrite Rmult_0_l.
      apply Rmin_left. lra.
Qed.

(** X7.  The fallback of lines 123-125 covers RuntimeError only.  With
    adaptive weighting on and [last_layer] left at its default None,
    [torch.autograd.grad] raises TypeError, which leaves the try statement
    in evaluation mode as in training mode. *)
Theorem missing_last_layer_is_not_recovered self nll_loss g_loss :
  use_adaptive_adv self = true ->
  adversarial_d_weight (set_training false self) nll_loss g_loss None = Raise TypeError
  /\ adversarial_d_weight (set_training true self) nll_loss g_loss None = Raise TypeError.
Proof.
  intro H. unfold adversarial_d_weight.
  cbn [use_adaptive_adv set_training]. rewrite H. split; reflexivity.
Qed.

Lemma missing_last_layer_is_not_recovered_witness :
  use_adaptive_adv Demo.fresh_instance = true
  /\ adversarial_d_weight (set_training false Demo.fresh_instance) 0 0 None
     = Raise TypeError.
Proof.
  split; [reflexivity|].
  exact (proj1 (missing_last_layer_is_not_recovered Demo.fresh_instance 0 0 eq_refl)).
Defined.

Lemma lsum_nonneg l : Forall (fun x => 0 <= x) l -> 0 <= lsum l.
Proof.
  unfold lsum. induction 1 as [|x l Hx _ IH]; cbn [fold_right]; lra.
Qed.

Lemma lmean_nonneg l : Forall (fun x => 0 <= x) l -> 0 <= lmean l.
Proof.
  intro H. unfold lmean. destruct l as [|x l].
  - cbn. lra.
  - apply Rmult_le_pos; [now apply lsum_nonneg|].
    apply Rlt_le, Rinv_0_lt_compat, lt_0_INR. cbn. lia.
Qed.

Lemma r1_gradients_norm_nonneg g : 0 <= r1_gradients_norm g.
Proof.
  unfold r1_gradients_norm. apply lmean_nonneg.
  apply Forall_map, Forall_forall. intros row _.
  apply pow2_ge_0.
Qed.

(** X8.  The discriminator branch (lines 145-169) raises only when the R1
    penalty is due and autograd fails, and then with autograd's exception.
    When it returns, the log holds under disc_loss the adversarial term
    without the penalty, and the returned loss is never below it; off the
    penalty steps the two are equal. *)
Theorem discriminator_loss_never_below_logged self logit_inputs mu global_step split :
  let due := training self && (global_step mod 16 =? 0)%Z in
  match discriminator_update self logit_inputs mu global_step split with
  | Ok (loss, log) =>
      exists adversarial,
        dict_get (fmt split "disc_loss") log = Some adversarial
        /\ adversarial <= loss
        /\ (if due then True else loss = adversarial)
  | Raise e =>
      due = true
      /\ disc_input_grad (discriminator self) (tmap sigmoid logit_inputs) = Raise e
  end.
Proof.
  cbv zeta. rewrite discriminator_update_eq.
  destruct (training self && (global_step mod 16 =? 0)%Z).
  - destruct (disc_input_grad _ _) as [g|e]; cbn [Py.bind]; [|now split].
    eexists. split; [dict_simpl; reflexivity|]. split; [|exact I].
    pose proof (r1_gradients_norm_nonneg g). lra.
  - eexists. split; [dict_simpl; reflexivity|]. split; [lra | reflexivity].
Qed.

(** X9.  Computing the adversarial weight (lines 91-99 and 118-125) never
    writes to a tensor and never calls the discriminator: from any store,
    returning or raising, it leaves every object and storage in place, the
    grad mode and the list of discriminator calls as they were. *)
Theorem weight_computation_touches_nothing self nll g last_layer (h : Store.heap) :
  let h' := snd (Store.adversarial_d_weight self nll g last_layer h) in
  Store.extends h h'
  /\ Store.grad_mode h' = Store.grad_mode h
  /\ Store.disc_calls h' = Store.disc_calls h.
Proof. apply (quiet_adversarial_d_weight self nll g last_layer h). Qed.

(** X10.  The two readings of the discriminator branch agree.  From any
    store in which [logit_inputs] and [mu] are tensors, the branch over
    tensor objects ends as the branch over values does on what those two
    tensors show: it raises the same exception, or it returns a tensor
    that holds the same loss and a log whose tensors hold the same numbers
    under the same keys.  In particular the tensor logged under disc_loss
    is a copy: the in-place [d_loss += ...] of line 165 does not reach
    it. *)
Theorem discriminator_branch_agrees self logit_inputs mu shown_inputs shown_mu
    global_step split (h : Store.heap) :
  Store.has h logit_inputs shown_inputs ->
  Store.has h mu shown_mu ->
  let run := Store.discriminator_update self logit_inputs mu global_step split h in
  match VQLPIPSWithDiscriminator.discriminator_update self shown_inputs shown_mu
          global_step split with
  | Ok (loss, log) =>
      exists r rlog,
        fst run = Ok (r, rlog)
        /\ Store.item (Store.data (snd run) r) = loss
        /\ Store.read_log (snd run) rlog = log
  | Raise e => fst run = Raise e
  end.
Proof.
  intros Hli Hmu. cbv zeta.
  rewrite discriminator_update_eq.
  unfold Store.discriminator_update.
  destruct (discriminator_logits_values self logit_inputs mu _ _ h Hli Hmu)
    as (inputs & lr & lf & sr & sf & h1 & R1 & K1 & I & L & WL & LF & WLF).
  rewrite (bind_ok _ _ _ _ _ R1).
  destruct (discriminator_loss_values self lr lf _ _ sr sf global_step split h1 L WL LF WLF)
    as (d_loss & e1 & e2 & e3 & sd & s1 & s2 & s3 & h2 & R2 & K2
        & DL & WD & E1 & W1 & N1 & E2 & W2 & N2 & E3 & W3 & N3).
  rewrite (bind_ok _ _ _ _ _ R2).
  apply (proj1 K2) in I.
  destruct (VQLPIPSWithDiscriminator.training self && (global_step mod 16 =? 0)%Z).
  - pose proof (r1_norm_values self inputs lr _ h2 I) as Hnorm.
    destruct (disc_input_grad _ _) as [g|e].
    + destruct Hnorm as (gn & sg & h3 & R3 & K3 & N & WN & Hsg).
      rewrite (bind_ok _ _ _ _ _ R3). cbn [Py.bind].
      assert (Hne : sg <> sd).
      { destruct WD as (o & _ & _ & _ & Hlt). lia. }
      pose proof K3 as (K3h & K3w & _).
      destruct (r1_penalty_values d_loss gn sd sg _ _ split
                  [(fmt split "disc_loss", e1); (fmt split "logits_real", e2);
                   (fmt split "logits_fake", e3)] h3
                  (K3w _ _ WD) (K3h _ _ DL) WN N Hne)
        as (e4 & h4 & R4 & DL4 & E4 & Hothers).
      rewrite (bind_ok _ _ _ _ _ R4).
      rewrite discriminator_log_r1.
      pose proof (Hothers e1 s1 _ (K3w _ _ W1) N1 (K3h _ _ E1)) as E1'.
      pose proof (Hothers e2 s2 _ (K3w _ _ W2) N2 (K3h _ _ E2)) as E2'.
      pose proof (Hothers e3 s3 _ (K3w _ _ W3) N3 (K3h _ _ E3)) as E3'.
      do 2 eexists. cbn [fst snd Store.ret]. split; [reflexivity|].
      unfold Store.read_log. cbn [map fst snd app].
      rewrite (proj2 DL4), (proj2 E1'), (proj2 E2'), (proj2 E3'), (proj2 E4).
      split; reflexivity.
    + destruct Hnorm as (h3 & R3 & _).
      rewrite (bind_raise _ _ _ _ _ R3). reflexivity.
  - do 2 eexists. cbn [fst snd Store.ret]. split; [reflexivity|].
    unfold Store.read_log. cbn [map fst snd].
    rewrite (proj2 DL), (proj2 E1), (proj2 E2), (proj2 E3).
    split; reflexivity.
Qed.

Lemma discriminator_branch_agrees_witness :
  Store.has Demo.one_pixel_store O (Demo.pixel 0)
  /\ exists r rlog,
       fst (Store.discriminator_update Demo.fresh_instance O O 15 "train"
              Demo.one_pixel_store)
       = Ok (r, rlog)
       /\ Store.item
            (Store.data
               (snd (Store.discriminator_update Demo.fresh_instance O O 15 "train"
                       Demo.one_pixel_store)) r)
          = 1.
Proof.
  assert (H : Store.has Demo.one_pixel_store O (Demo.pixel 0)).
  { split; [|reflexivity]. eexists. split; [reflexivity|]. cbn. lia. }
  split; [exact H|].
  pose proof (discriminator_branch_agrees Demo.fresh_instance O O _ _ 15 "train" _ H H)
    as Hrun.
  cbv zeta in Hrun. rewrite demo_discriminator_update in Hrun by lia.
  change (15 mod 16 =? 0)%Z with false in Hrun.
  destruct Hrun as (r & rlog & Hfst & Hitem & _).
  exists r, rlog. split; [exact Hfst | exact Hitem].
Defined.

End Further.
